(** * The address book of [address_book.py]: value types, records, the
      birthday window and the command layer.

    The Python program is embedded shallowly.  Python values become Rocq
    values, a raised exception becomes the [Raise] outcome of a small
    state-and-exception monad, and the mutable [AddressBook] shared by the
    commands becomes the state threaded through that monad. *)

From Stdlib Require Import List ZArith Lia Bool String Ascii DecimalString.
Import ListNotations.
Open Scope Z_scope.

(** ** Python strings

    A Python [str] is a sequence of Unicode code points, so it is modelled
    as a list of integers, not as a byte string: [str.isdigit] and the
    regular expression class [\d] look at code points. *)

Definition str := list Z.

Definition lit (s : string) : str :=
  map (fun a => Z.of_N (N_of_ascii a)) (list_ascii_of_string s).

Fixpoint str_eqb (a b : str) : bool :=
  match a, b with
  | [], [] => true
  | x :: a', y :: b' => (x =? y) && str_eqb a' b'
  | _, _ => false
  end.

(** [sep.join(parts)]. *)
Fixpoint join (sep : str) (parts : list str) : str :=
  match parts with
  | [] => []
  | [p] => p
  | p :: rest => p ++ sep ++ join sep rest
  end.

(** *** The Unicode character database (version 15.0, as in CPython 3.12)

    First code points of the runs of ten characters of general category
    Nd (Numeric_Type = Decimal); the character at offset [i] of a run has
    the digit value [i]. *)
Definition decimal_runs : list Z :=
  [ 0x0030; 0x0660; 0x06F0; 0x07C0; 0x0966; 0x09E6; 0x0A66; 0x0AE6;
    0x0B66; 0x0BE6; 0x0C66; 0x0CE6; 0x0D66; 0x0DE6; 0x0E50; 0x0ED0;
    0x0F20; 0x1040; 0x1090; 0x17E0; 0x1810; 0x1946; 0x19D0; 0x1A80;
    0x1A90; 0x1B50; 0x1BB0; 0x1C40; 0x1C50; 0xA620; 0xA8D0; 0xA900;
    0xA9D0; 0xA9F0; 0xAA50; 0xABF0; 0xFF10; 0x104A0; 0x10D30; 0x11066;
    0x110F0; 0x11136; 0x111D0; 0x112F0; 0x11450; 0x114D0; 0x11650;
    0x116C0; 0x11730; 0x118E0; 0x11950; 0x11C50; 0x11D50; 0x11DA0;
    0x11F50; 0x16A60; 0x16AC0; 0x16B50; 0x1D7CE; 0x1D7D8; 0x1D7E2;
    0x1D7EC; 0x1D7F6; 0x1E140; 0x1E2F0; 0x1E4F0; 0x1E950; 0x1FBF0 ].

(** Inclusive ranges of the characters with Numeric_Type = Digit that are
    not decimal (superscripts, subscripts, circled digits and the like). *)
Definition digit_ranges : list (Z * Z) :=
  [ (0x00B2, 0x00B3); (0x00B9, 0x00B9); (0x1369, 0x1371); (0x19DA, 0x19DA);
    (0x2070, 0x2070); (0x2074, 0x2079); (0x2080, 0x2089); (0x2460, 0x2468);
    (0x2474, 0x247C); (0x2488, 0x2490); (0x24EA, 0x24EA); (0x24F5, 0x24FD);
    (0x24FF, 0x24FF); (0x2776, 0x277E); (0x2780, 0x2788); (0x278A, 0x2792);
    (0x10A40, 0x10A43); (0x10E60, 0x10E68); (0x11052, 0x1105A);
    (0x1F100, 0x1F10A) ].

Definition in_range (lo hi c : Z) : bool := (lo <=? c) && (c <=? hi).

(** The decimal digit value of a code point, when it has one. *)
Fixpoint decimal_in (runs : list Z) (c : Z) : option Z :=
  match runs with
  | [] => None
  | b :: runs' => if in_range b (b + 9) c then Some (c - b) else decimal_in runs' c
  end.

Definition decimal_value (c : Z) : option Z := decimal_in decimal_runs c.

(** [Py_UNICODE_ISDECIMAL]: what [\d] matches in a [str] pattern. *)
Definition isdecimal_char (c : Z) : bool :=
  match decimal_value c with Some _ => true | None => false end.

(** [Py_UNICODE_ISDIGIT]: what [str.isdigit] tests on each character. *)
Definition isdigit_char (c : Z) : bool :=
  isdecimal_char c || existsb (fun r => in_range (fst r) (snd r) c) digit_ranges.

(** [s.isdigit()]: every character is a digit and there is at least one. *)
Definition isdigit (s : str) : bool :=
  match s with
  | [] => false
  | _ => forallb isdigit_char s
  end.

Definition is_ascii (c : Z) : bool := in_range 0 127 c.
Definition is_ascii_digit (c : Z) : bool := in_range 48 57 c.

(** [Py_UNICODE_ISSPACE]: the white space that [int] strips. *)
Definition isspace_char (c : Z) : bool :=
  in_range 0x09 0x0D c || in_range 0x1C 0x20 c || (c =? 0x85) || (c =? 0xA0)
  || (c =? 0x1680) || in_range 0x2000 0x200A c || in_range 0x2028 0x2029 c
  || (c =? 0x202F) || (c =? 0x205F) || (c =? 0x3000).

(** ** Exceptions and outcomes *)

Inductive exn : Type :=
| IndexError
| KeyError
| ValueError (msg : str)
| OverflowError (msg : str).

Inductive outcome (A : Type) : Type :=
| Return (a : A)
| Raise (e : exn).
Arguments Return {A} a.
Arguments Raise {A} e.

Definition returns {A} (o : outcome A) : bool :=
  match o with Return _ => true | Raise _ => false end.

(** ** Validated value types *)

(** [class Field]: a wrapper around the raw value; [__str__] echoes it. *)
Record Field : Type := mkField { value : str }.

Definition Field_str (f : Field) : str := value f.

Module Name.

(** [class Name(Field): pass]: the inherited constructor, no validation. *)
Definition init (v : str) : outcome Field := Return (mkField v).

End Name.

Module Phone.

Definition validate (v : str) : bool :=
  isdigit v && (List.length v =? 10)%nat.

Definition init (v : str) : outcome Field :=
  if negb (validate v)
  then Raise (ValueError (lit "Phone number must be 10 digits."))
  else Return (mkField v).

End Phone.

(** ** Calendar dates ([datetime.date])

    The proleptic Gregorian calendar of the [datetime] module: the field
    checks of the constructor, ordinals, comparison, [replace] and the
    addition of a number of days. *)

Record date : Type := mkdate { year : Z; month : Z; day : Z }.

Definition MINYEAR : Z := 1.
Definition MAXYEAR : Z := 9999.
Definition MAXORDINAL : Z := 3652059.

Definition is_leap (y : Z) : bool :=
  (y mod 4 =? 0) && (negb (y mod 100 =? 0) || (y mod 400 =? 0)).

Definition DAYS_IN_MONTH : list Z :=
  [-1; 31; 28; 31; 30; 31; 30; 31; 31; 30; 31; 30; 31].

Definition DAYS_BEFORE_MONTH : list Z :=
  [-1; 0; 31; 59; 90; 120; 151; 181; 212; 243; 273; 304; 334].

Definition days_in_month (y m : Z) : Z :=
  if (m =? 2) && is_leap y then 29 else nth (Z.to_nat m) DAYS_IN_MONTH 0.

Definition days_before_year (y : Z) : Z :=
  let y := y - 1 in y * 365 + y / 4 - y / 100 + y / 400.

Definition days_before_month (y m : Z) : Z :=
  nth (Z.to_nat m) DAYS_BEFORE_MONTH 0 + (if (2 <? m) && is_leap y then 1 else 0).

Definition DI400Y : Z := Eval cbv in days_before_year 401.
Definition DI100Y : Z := Eval cbv in days_before_year 101.
Definition DI4Y : Z := Eval cbv in days_before_year 5.

(** The check of the constructor's fields, as a test. *)
Definition valid_date (d : date) : bool :=
  in_range MINYEAR MAXYEAR (year d) && in_range 1 12 (month d)
  && in_range 1 (days_in_month (year d) (month d)) (day d).

(** [date(y, m, d)], with the error texts of CPython 3.12. *)
Definition date_new (y m d : Z) : outcome date :=
  if negb (in_range MINYEAR MAXYEAR y) then
    Raise (ValueError (lit "year " ++ lit (NilEmpty.string_of_int (Z.to_int y))
                         ++ lit " is out of range"))
  else if negb (in_range 1 12 m) then
    Raise (ValueError (lit "month must be in 1..12"))
  else if negb (in_range 1 (days_in_month y m) d) then
    Raise (ValueError (lit "day is out of range for month"))
  else Return (mkdate y m d).

(** [d.replace(year=y)]. *)
Definition replace_year (d : date) (y : Z) : outcome date :=
  date_new y (month d) (day d).

(** [a <= b]: the comparison of the (year, month, day) triples. *)
Definition date_le (a b : date) : bool :=
  (year a <? year b)
  || ((year a =? year b)
      && ((month a <? month b) || ((month a =? month b) && (day a <=? day b)))).

Definition toordinal (d : date) : Z :=
  days_before_year (year d) + days_before_month (year d) (month d) + day d.

(** [date.fromordinal(n)]. *)
Definition fromordinal (n : Z) : date :=
  let n := n - 1 in
  let n400 := n / DI400Y in
  let n := n mod DI400Y in
  let y := n400 * 400 + 1 in
  let n100 := n / DI100Y in
  let n := n mod DI100Y in
  let n4 := n / DI4Y in
  let n := n mod DI4Y in
  let n1 := n / 365 in
  let n := n mod 365 in
  let y := y + n100 * 100 + n4 * 4 + n1 in
  if (n1 =? 4) || (n100 =? 4) then mkdate (y - 1) 12 31
  else
    let leapyear := (n1 =? 3) && (negb (n4 =? 24) || (n100 =? 3)) in
    let m := Z.shiftr (n + 50) 5 in
    let preceding :=
      nth (Z.to_nat m) DAYS_BEFORE_MONTH 0
      + (if (2 <? m) && leapyear then 1 else 0) in
    if n <? preceding then
      let m := m - 1 in
      let preceding :=
        preceding - (nth (Z.to_nat m) DAYS_IN_MONTH 0
                     + (if (m =? 2) && leapyear then 1 else 0)) in
      mkdate y m (n - preceding + 1)
    else mkdate y m (n - preceding + 1).

(** [d + timedelta(days=n)]. *)
Definition add_days (d : date) (n : Z) : outcome date :=
  let o := toordinal d + n in
  if (0 <? o) && (o <=? MAXORDINAL) then Return (fromordinal o)
  else Raise (OverflowError (lit "date value out of range")).

(** ** [datetime.strptime(data, "%d.%m.%Y")]

    [_strptime] turns the format into a regular expression, matches it at
    the start of the data with the backtracking matcher of [re], refuses
    data that the match does not consume entirely, converts the groups
    with [int] and builds the date, whose constructor checks the fields. *)

Inductive regex : Type :=
| Chr (c : Z)          (* one given character *)
| Rng (lo hi : Z)      (* a character class [lo-hi] *)
| Dec                  (* \d, a Unicode decimal digit *)
| Seq (r1 r2 : regex)
| Alt (r1 r2 : regex).

(** Backtracking matching with a continuation for the rest of the pattern:
    the alternatives are tried from left to right, and the first one after
    which the rest of the pattern matches is taken. *)
Fixpoint rmatch {A : Type} (r : regex) (s : str) (k : str -> option A) : option A :=
  match r with
  | Chr c =>
      match s with
      | x :: s' => if x =? c then k s' else None
      | [] => None
      end
  | Rng lo hi =>
      match s with
      | x :: s' => if in_range lo hi x then k s' else None
      | [] => None
      end
  | Dec =>
      match s with
      | x :: s' => if isdecimal_char x then k s' else None
      | [] => None
      end
  | Seq r1 r2 => rmatch r1 s (fun s' => rmatch r2 s' k)
  | Alt r1 r2 =>
      match rmatch r1 s k with
      | Some a => Some a
      | None => rmatch r2 s k
      end
  end.

Definition ch (a : ascii) : Z := Z.of_N (N_of_ascii a).

(** [%d]: [3[0-1]|[1-2]\d|0[1-9]|[1-9]| [1-9]]. *)
Definition re_d : regex :=
  Alt (Seq (Chr (ch "3")) (Rng (ch "0") (ch "1")))
 (Alt (Seq (Rng (ch "1") (ch "2")) Dec)
 (Alt (Seq (Chr (ch "0")) (Rng (ch "1") (ch "9")))
 (Alt (Rng (ch "1") (ch "9"))
      (Seq (Chr (ch " ")) (Rng (ch "1") (ch "9")))))).

(** [%m]: [1[0-2]|0[1-9]|[1-9]]. *)
Definition re_m : regex :=
  Alt (Seq (Chr (ch "1")) (Rng (ch "0") (ch "2")))
 (Alt (Seq (Chr (ch "0")) (Rng (ch "1") (ch "9")))
      (Rng (ch "1") (ch "9"))).

(** [%Y]: [\d\d\d\d]. *)
Definition re_Y : regex := Seq Dec (Seq Dec (Seq Dec Dec)).

Definition dot : Z := ch ".".

(** The part of [s] in front of its suffix [rest]. *)
Definition taken (s rest : str) : str :=
  firstn (List.length s - List.length rest) s.

(** The groups [d], [m] and [Y] of the first match, and the unmatched rest. *)
Definition match_dmY (data : str) : option (str * str * str * str) :=
  rmatch re_d data (fun s1 =>
  rmatch (Chr dot) s1 (fun s2 =>
  rmatch re_m s2 (fun s3 =>
  rmatch (Chr dot) s3 (fun s4 =>
  rmatch re_Y s4 (fun s5 =>
    Some (taken data s1, taken s2 s3, taken s4 s5, s5)))))).

Fixpoint lstrip (s : str) : str :=
  match s with
  | c :: s' => if isspace_char c then lstrip s' else s
  | [] => []
  end.

Fixpoint digits_value (acc : Z) (s : str) : option Z :=
  match s with
  | [] => Some acc
  | c :: s' =>
      match decimal_value c with
      | Some v => digits_value (10 * acc + v) s'
      | None => None
      end
  end.

(** [int(text)] on a text made of decimal digits after optional white
    space, which is all that the groups of the pattern capture; [None]
    stands for the [ValueError] of [int] on any other text. *)
Definition int_of (text : str) : option Z :=
  match lstrip text with
  | [] => None
  | ds => digits_value 0 ds
  end.

(** [repr] of a string, for messages: exact when the string holds no quote,
    backslash or unprintable character. *)
Definition repr (s : str) : str := lit "'" ++ s ++ lit "'".

Definition strptime (data : str) : outcome date :=
  match match_dmY data with
  | None =>
      Raise (ValueError (lit "time data " ++ repr data
                           ++ lit " does not match format '%d.%m.%Y'"))
  | Some (d, m, y, rest) =>
      match rest with
      | _ :: _ => Raise (ValueError (lit "unconverted data remains: " ++ rest))
      | [] =>
          match int_of y, int_of m, int_of d with
          | Some y', Some m', Some d' => date_new y' m' d'
          | _, _, _ =>
              Raise (ValueError (lit "invalid literal for int() with base 10"))
          end
      end
  end.

Module Birthday.

(** [strptime] raises nothing but [ValueError] (see
    [strptime_raises_ValueError]), so the handler catches every failure. *)
Definition validate_date (v : str) : bool :=
  match strptime v with
  | Return _ => true
  | Raise _ => false
  end.

Definition init (v : str) : outcome Field :=
  if negb (validate_date v)
  then Raise (ValueError (lit "Invalid date format. Use DD.MM.YYYY"))
  else Return (mkField v).

Definition string_to_date (date_string : str) : outcome date :=
  strptime date_string.

End Birthday.

(** ** Monads: outcomes, and commands over the shared state *)

Class Monad (m : Type -> Type) : Type := {
  ret : forall {A}, A -> m A;
  bind : forall {A B}, m A -> (A -> m B) -> m B
}.

Notation "x <- c1 ;; c2" := (bind c1 (fun x => c2))
  (at level 61, c1 at next level, right associativity).
Notation "c1 ;;; c2" := (bind c1 (fun _ => c2))
  (at level 61, right associativity).

#[export] Instance outcome_monad : Monad outcome := {
  ret := fun A a => Return a;
  bind := fun A B o f => match o with Return a => f a | Raise e => Raise e end
}.

(** ** Contact records *)

Module Record.

Record t : Type := mk { name : Field; phone : option Field; birthday : option Field }.

(** [Record(name)]. *)
Definition init (n : str) : outcome t :=
  nm <- Name.init n ;; ret (mk nm None None).

(** [self.phone = Phone(phone)]: the field is assigned after the
    constructor has returned. *)
Definition add_phone (p : str) (self : t) : outcome t :=
  ph <- Phone.init p ;; ret (mk (name self) (Some ph) (birthday self)).

Definition add_birthday (b : str) (self : t) : outcome t :=
  bd <- Birthday.init b ;; ret (mk (name self) (phone self) (Some bd)).

Definition edit_phone (new_phone : str) (self : t) : outcome t :=
  ph <- Phone.init new_phone ;; ret (mk (name self) (Some ph) (birthday self)).

(** [str(self.phone)], as an f-string renders it. *)
Definition phone_str (self : t) : str :=
  match phone self with
  | Some ph => Field_str ph
  | None => lit "None"
  end.

Definition birthday_str (self : t) : str :=
  match birthday self with
  | Some bd => value bd
  | None => lit "N/A"
  end.

(** [__str__]. *)
Definition to_str (self : t) : str :=
  lit "Contact name: " ++ value (name self) ++ lit ", phone " ++ phone_str self
    ++ lit ", birthday: " ++ birthday_str self.

End Record.

(** ** The address book

    [AddressBook(UserDict)]: [data] is a dictionary, which keeps its keys in
    insertion order, so it is an association list without repeated keys.
    Every record object is referenced from exactly one slot of [data] (it
    is created by Add Contact and stored at once under its name), so a
    reference to a record is the key of its slot, and a mutation of the
    object is an update of that slot. *)

Module AddressBook.

Definition t : Type := list (str * Record.t).

(** [data.get(key)]. *)
Fixpoint find (key : str) (data : t) : option Record.t :=
  match data with
  | [] => None
  | (k, r) :: data' => if str_eqb k key then Some r else find key data'
  end.

(** [data[key] = r]: an existing key keeps its position. *)
Fixpoint setitem (key : str) (r : Record.t) (data : t) : t :=
  match data with
  | [] => [(key, r)]
  | (k, r') :: data' =>
      if str_eqb k key then (k, r) :: data' else (k, r') :: setitem key r data'
  end.

Definition add_record (r : Record.t) (data : t) : t :=
  setitem (value (Record.name r)) r data.

(** [data.values()]. *)
Definition values (data : t) : list Record.t := map snd data.

Definition keys (data : t) : list str := map fst data.

(** The loop of [get_upcoming_birthdays] over the remaining records, with
    the list built so far.  The chained comparison evaluates
    [today + timedelta(days)] only once [today <= this_year_bday] holds. *)
Fixpoint upcoming_loop (today : date) (days : Z) (upcoming_birthdays : list Record.t)
    (records : list Record.t) : outcome (list Record.t) :=
  match records with
  | [] => Return upcoming_birthdays
  | record :: rest =>
      match Record.birthday record with
      | None => upcoming_loop today days upcoming_birthdays rest
      | Some b =>
          bday_date <- Birthday.string_to_date (value b) ;;
          this_year_bday <- replace_year bday_date (year today) ;;
          if date_le today this_year_bday then
            limit <- add_days today days ;;
            if date_le this_year_bday limit
            then upcoming_loop today days (upcoming_birthdays ++ [record]) rest
            else upcoming_loop today days upcoming_birthdays rest
          else upcoming_loop today days upcoming_birthdays rest
      end
  end.

(** [get_upcoming_birthdays(days)], with the date [date.today()] returns. *)
Definition get_upcoming_birthdays (today : date) (days : Z) (data : t)
    : outcome (list Record.t) :=
  upcoming_loop today days [] (values data).

End AddressBook.

(** ** The state shared by the commands

    The address book that [main] passes to every command, and the contents
    of the file [address_book.pkl] ([None] while the file does not exist).
    An exception leaves the state as it was when it was raised. *)

Record World : Type := mkWorld { book : AddressBook.t; pkl : option AddressBook.t }.

Definition M (A : Type) : Type := World -> outcome A * World.

#[export] Instance M_monad : Monad M := {
  ret := fun A a w => (Return a, w);
  bind := fun A B c f w =>
    match c w with
    | (Return a, w') => f a w'
    | (Raise e, w') => (Raise e, w')
    end
}.

Definition raise {A : Type} (e : exn) : M A := fun w => (Raise e, w).

Definition lift {A : Type} (o : outcome A) : M A := fun w => (o, w).

Definition get_book : M AddressBook.t := fun w => (Return (book w), w).

Definition put_book (b : AddressBook.t) : M unit :=
  fun w => (Return tt, mkWorld b (pkl w)).

(** [book.find(name)]: the record under that key, if any. *)
Definition find (name : str) : M (option Record.t) :=
  b <- get_book ;; ret (AddressBook.find name b).

(** [book.add_record(record)]. *)
Definition add_record (r : Record.t) : M unit :=
  b <- get_book ;; put_book (AddressBook.add_record r b).

(** A method call [record.f(...)] on the record object stored under [key]:
    when the method raises, the object is as before. *)
Definition on_record (key : str) (f : Record.t -> outcome Record.t) : M unit :=
  b <- get_book ;;
  match AddressBook.find key b with
  | None => ret tt
  | Some r => r' <- lift (f r) ;; put_book (AddressBook.setitem key r' b)
  end.

(** [save_address_book(book)]: the file now holds a copy of the book. *)
Definition save_address_book : M unit :=
  fun w => (Return tt, mkWorld (book w) (Some (book w))).

(** [input_error]: the decorator around every [execute]. *)
Definition input_error (func : M str) : M str := fun w =>
  match func w with
  | (Return s, w') => (Return s, w')
  | (Raise IndexError, w') =>
      (Return (lit "You haven't entered a contact name or phone!"), w')
  | (Raise KeyError, w') => (Return (lit "Contact is not found!"), w')
  | (Raise (ValueError msg), w') => (Return msg, w')
  | (Raise e, w') => (Raise e, w')
  end.

Definition str_of_nat (n : nat) : str :=
  lit (NilEmpty.string_of_uint (Nat.to_uint n)).

(** The [ValueError] of unpacking [a, b = args] (texts of CPython 3.12). *)
Definition unpack2_error (args : list str) : exn :=
  if (List.length args <? 2)%nat
  then ValueError (lit "not enough values to unpack (expected 2, got "
                     ++ str_of_nat (List.length args) ++ lit ")")
  else ValueError (lit "too many values to unpack (expected 2)").

(** ** The commands *)

Module AddContact.

Definition body (args : list str) : M str :=
  match args with
  | name :: phone :: _ =>
      record <- find name ;;
      message <-
        match record with
        | None =>
            r <- lift (Record.init name) ;;
            add_record r ;;;
            ret (lit "Contact added.")
        | Some _ => ret (lit "Contact updated.")
        end ;;
      match phone with
      | [] => ret tt
      | _ :: _ => on_record name (Record.add_phone phone)
      end ;;;
      save_address_book ;;;
      ret message
  | _ => raise (ValueError (lit "Maybe you forgot enter name or phone?"))
  end.

Definition execute (args : list str) : M str := input_error (body args).

End AddContact.

Module ChangePhone.

Definition body (args : list str) : M str :=
  match args with
  | [] => raise (ValueError (lit "You did not enter the subscriber's name!"))
  | [_] => raise (ValueError (lit "You did not enter a new phone number!"))
  | [name; new_phone] =>
      record <- find name ;;
      match record with
      | None => raise KeyError
      | Some _ =>
          if negb (Phone.validate new_phone)
          then raise (ValueError (lit "Phone number must be 10 digits."))
          else
            on_record name (Record.edit_phone new_phone) ;;;
            save_address_book ;;;
            ret (lit "Phone number updated.")
      end
  | _ => raise (unpack2_error args)
  end.

Definition execute (args : list str) : M str := input_error (body args).

End ChangePhone.

Module GetPhone.

Definition body (args : list str) : M str :=
  match args with
  | [] => raise IndexError
  | name :: _ =>
      record <- find name ;;
      match record with
      | None => raise KeyError
      | Some r => ret (name ++ lit ": " ++ Record.phone_str r)
      end
  end.

Definition execute (args : list str) : M str := input_error (body args).

End GetPhone.

Module ShowAll.

Definition body (_args : list str) : M str :=
  b <- get_book ;;
  ret (join (lit (String "010" EmptyString)) (map Record.to_str (AddressBook.values b))).

Definition execute (args : list str) : M str := input_error (body args).

End ShowAll.

Module AddBirthday.

Definition body (args : list str) : M str :=
  match args with
  | [name; birthday] =>
      record <- find name ;;
      match record with
      | None => raise KeyError
      | Some _ =>
          on_record name (Record.add_birthday birthday) ;;;
          save_address_book ;;;
          ret (lit "Birthday added.")
      end
  | _ => raise (unpack2_error args)
  end.

Definition execute (args : list str) : M str := input_error (body args).

End AddBirthday.

Module ShowBirthday.

Definition body (args : list str) : M str :=
  match args with
  | [] => raise IndexError
  | name :: _ =>
      record <- find name ;;
      match record with
      | None => raise KeyError
      | Some r => ret (name ++ lit ": " ++ Record.birthday_str r)
      end
  end.

Definition execute (args : list str) : M str := input_error (body args).

End ShowBirthday.

Module ShowBirthdays.

(** [today] is what [date.today()] returns during the call. *)
Definition body (today : date) (_args : list str) : M str :=
  b <- get_book ;;
  upcoming_birthdays <- lift (AddressBook.get_upcoming_birthdays today 7 b) ;;
  match upcoming_birthdays with
  | [] => raise (ValueError (lit "No birthdays in the next week!"))
  | _ :: _ =>
      ret (join (lit (String "010" EmptyString)) (map Record.to_str upcoming_birthdays))
  end.

Definition execute (today : date) (args : list str) : M str :=
  input_error (body today args).

End ShowBirthdays.

(** The table [commands] of [main], and the call
    [commands[command].execute(args, book)]. *)
Inductive command : Type :=
| add | change | phone | all | add_birthday | show_birthday | birthdays.

Definition execute (today : date) (c : command) (args : list str) : M str :=
  match c with
  | add => AddContact.execute args
  | change => ChangePhone.execute args
  | phone => GetPhone.execute args
  | all => ShowAll.execute args
  | add_birthday => AddBirthday.execute args
  | show_birthday => ShowBirthday.execute args
  | birthdays => ShowBirthdays.execute today args
  end.

Definition empty_world : World := mkWorld [] None.

(** * Definitions for the statements

    The predicates of the specification, and the books and states the
    statements are evaluated on. *)

(** The undecorated body of a command. *)
Definition body (today : date) (c : command) (args : list str) : M str :=
  match c with
  | add => AddContact.body args
  | change => ChangePhone.body args
  | phone => GetPhone.body args
  | all => ShowAll.body args
  | add_birthday => AddBirthday.body args
  | show_birthday => ShowBirthday.body args
  | birthdays => ShowBirthdays.body today args
  end.

(** The commands that only read the book. *)
Definition is_query (c : command) : bool :=
  match c with
  | phone | all | show_birthday | birthdays => true
  | add | change | add_birthday => false
  end.

(** The exceptions [input_error] has a handler for. *)
Definition caught (e : exn) : bool :=
  match e with
  | IndexError | KeyError | ValueError _ => true
  | OverflowError _ => false
  end.

(** The number of slots of the dictionary under a key. *)
Definition slots (key : str) (data : AddressBook.t) : nat :=
  List.length (filter (fun kr => str_eqb (fst kr) key) data).

(** The birthday of a record re-anchored to the current year: its year
    replaced by today's. *)
Definition anchored (today : date) (r : Record.t) : option date :=
  match Record.birthday r with
  | None => None
  | Some b =>
      match Birthday.string_to_date (value b) with
      | Raise _ => None
      | Return bday =>
          match replace_year bday (year today) with
          | Raise _ => None
          | Return a => Some a
          end
      end
  end.

(** The window test in the words of the specification:
    [today <= anchored_date <= today + days], inclusive at both ends. *)
Definition in_window (today : date) (days : Z) (r : Record.t) : bool :=
  match anchored today r, add_days today days with
  | Some a, Return limit => date_le today a && date_le a limit
  | _, _ => false
  end.

(** The strings a regular expression denotes. *)
Fixpoint lang (r : regex) (p : str) : Prop :=
  match r with
  | Chr c => p = [c]
  | Rng lo hi => exists x, p = [x] /\ in_range lo hi x = true
  | Dec => exists x, p = [x] /\ isdecimal_char x = true
  | Seq r1 r2 => exists p1 p2, p = p1 ++ p2 /\ lang r1 p1 /\ lang r2 p2
  | Alt r1 r2 => lang r1 p \/ lang r2 p
  end.

(** No string of [r] holds the character [c]. *)
Fixpoint excludes (c : Z) (r : regex) : bool :=
  match r with
  | Chr x => negb (x =? c)
  | Rng lo hi => negb (in_range lo hi c)
  | Dec => negb (isdecimal_char c)
  | Seq r1 r2 | Alt r1 r2 => excludes c r1 && excludes c r2
  end.

(** The value of an ASCII digit. *)
Definition digit_of (c : Z) : Z := c - 48.

(** A birthday in the words of the specification: two digits of day, two
    of month and four of year, separated by dots, that denote a real
    calendar date (of the years 0001 to 9999). *)
Definition is_DD_MM_YYYY (s : str) : bool :=
  match s with
  | [d1; d2; p1; m1; m2; p2; y1; y2; y3; y4] =>
      forallb is_ascii_digit [d1; d2; m1; m2; y1; y2; y3; y4]
      && (p1 =? dot) && (p2 =? dot)
      && valid_date
           (mkdate
              (1000 * digit_of y1 + 100 * digit_of y2 + 10 * digit_of y3 + digit_of y4)
              (10 * digit_of m1 + digit_of m2)
              (10 * digit_of d1 + digit_of d2))
  | _ => false
  end.

(** The ten Arabic-Indic digits U+0661 ... U+0669, U+0660. *)
Definition arabic_indic_phone : str :=
  [0x661; 0x662; 0x663; 0x664; 0x665; 0x666; 0x667; 0x668; 0x669; 0x660].

Definition person (n p b : string) : str * Record.t :=
  (lit n, Record.mk (mkField (lit n)) (Some (mkField (lit p))) (Some (mkField (lit b)))).

(** The records of the window example of the specification, with the two
    ends of the window. *)
Definition june_book : AddressBook.t :=
  [ person "Ann" "0123456789" "12.06.1990";
    person "Ben" "0123456789" "20.06.1990";
    person "Cat" "0123456789" "05.06.1990";
    person "Dan" "0123456789" "10.06.2000";
    person "Eve" "0123456789" "17.06.1985";
    person "Fay" "0123456789" "18.06.1985" ].

Definition december_book : AddressBook.t :=
  [ person "Jan" "0123456789" "02.01.1990" ].

Definition bob_without_phone : World :=
  mkWorld [(lit "Bob", Record.mk (mkField (lit "Bob")) None None)] None.

Definition alice_with_birthday : World :=
  mkWorld [(lit "Alice", Record.mk (mkField (lit "Alice"))
                           (Some (mkField (lit "0123456789")))
                           (Some (mkField (lit "12.06.1990"))))] None.

(** * The read loop

    [parse_input], the table [commands], [load_address_book] and the loop
    of [main].  A session is the list of the lines [get_input] returns,
    each with the date the clock shows while it is processed; the texts
    passed to [display_message] are collected in order. *)

(** [s.split()]: the maximal runs of characters that are not white space;
    [tok] is the run being read. *)
Fixpoint split_from (tok : str) (s : str) : list str :=
  match s with
  | [] => match tok with [] => [] | _ :: _ => [tok] end
  | c :: s' =>
      if isspace_char c
      then match tok with
           | [] => split_from [] s'
           | _ :: _ => tok :: split_from [] s'
           end
      else split_from (tok ++ [c]) s'
  end.

Definition split (s : str) : list str := split_from [] s.

Definition rstrip (s : str) : str := rev (lstrip (rev s)).

(** [s.strip()]. *)
Definition strip (s : str) : str := rstrip (lstrip s).

Definition lower_ascii_char (c : Z) : Z :=
  if in_range 65 90 c then c + 32 else c.

Inductive status : Type :=
| Running
| Closed
| Crashed (e : exn).

(** The table [commands] of [main]. *)
Definition commands : list (str * command) :=
  [ (lit "add", add); (lit "change", change); (lit "phone", phone);
    (lit "all", all); (lit "add-birthday", add_birthday);
    (lit "show-birthday", show_birthday); (lit "birthdays", birthdays) ].

(** [commands[name]], when [name in commands]. *)
Fixpoint lookup (name : str) (table : list (str * command)) : option command :=
  match table with
  | [] => None
  | (k, c) :: table' => if str_eqb k name then Some c else lookup name table'
  end.

(** [load_address_book()]: the book of the file, or an empty book when the
    file does not exist. *)
Definition load_address_book (file : option AddressBook.t) : AddressBook.t :=
  match file with
  | Some b => b
  | None => []
  end.

Section ReadLoop.

(** [str.lower] on a string with a character outside ASCII: the case
    mapping of the Unicode database, which is not part of the program. *)
Variable unicode_lower : str -> str.

(** [s.lower()]. *)
Definition lower (s : str) : str :=
  if forallb is_ascii s then map lower_ascii_char s else unicode_lower s.

(** [parse_input(user_input)]: unpacking [cmd, *args] needs one token. *)
Definition parse_input (user_input : str) : outcome (str * list str) :=
  match split user_input with
  | [] =>
      Raise (ValueError
               (lit "not enough values to unpack (expected at least 1, got 0)"))
  | cmd :: args => Return (lower (strip cmd), args)
  end.

(** The chain of tests of [main] on the parsed command. *)
Definition dispatch (today : date) (command : str) (args : list str) (w : World)
    : list str * status * World :=
  if str_eqb command (lit "close") || str_eqb command (lit "exit") then
    ([lit "Good bye!"], Closed, snd (save_address_book w))
  else if str_eqb command (lit "hello") then
    ([lit "How can I help you?"], Running, w)
  else
    match lookup command commands with
    | Some c =>
        match execute today c args w with
        | (Return outcome, w') => ([outcome], Running, w')
        | (Raise e, w') => ([], Crashed e, w')
        end
    | None => ([lit "Invalid command."], Running, w)
    end.

(** One turn of the loop of [main] on a line: the texts displayed, whether
    the loop goes on, and the state afterwards.  An exception that reaches
    [main] ends the program. *)
Definition turn (today : date) (user_input : str) (w : World)
    : list str * status * World :=
  match user_input with
  | [] => ([lit "You have not entered anything"], Running, w)
  | _ :: _ =>
      match parse_input user_input with
      | Raise e => ([], Crashed e, w)
      | Return (command, args) => dispatch today command args w
      end
  end.

(** The loop of [main] over the lines entered so far. *)
Fixpoint loop (inputs : list (date * str)) (w : World) : list str * status * World :=
  match inputs with
  | [] => ([], Running, w)
  | (today, user_input) :: rest =>
      match turn today user_input w with
      | (shown, Running, w') =>
          let '(shown', st, w'') := loop rest w' in (shown ++ shown', st, w'')
      | stopped => stopped
      end
  end.

(** [main()], started with the given contents of the file. *)
Definition main (file : option AddressBook.t) (inputs : list (date * str))
    : list str * status * World :=
  let '(shown, st, w) := loop inputs (mkWorld (load_address_book file) file) in
  (lit "Welcome to the assistant bot!" :: shown, st, w).

End ReadLoop.

(** * Invariants of the address book *)

(** A record under the key [k] as the commands build it: the key is the
    record's name, and a phone or a birthday that is set passed its
    validation. *)
Definition wf_record (k : str) (r : Record.t) : bool :=
  str_eqb (value (Record.name r)) k
  && match Record.phone r with
     | Some p => Phone.validate (value p)
     | None => true
     end
  && match Record.birthday r with
     | Some b => Birthday.validate_date (value b)
     | None => true
     end.

Definition wf_book (data : AddressBook.t) : Prop :=
  NoDup (AddressBook.keys data)
  /\ Forall (fun kr => wf_record (fst kr) (snd kr) = true) data.

(** The file holds the book: loading it now would give the book back. *)
Definition in_sync (w : World) : Prop := load_address_book (pkl w) = book w.

Definition nonspace (c : Z) : bool := negb (isspace_char c).

(** A token of [split]: not empty, without white space. *)
Definition is_token (s : str) : bool :=
  match s with
  | [] => false
  | _ :: _ => forallb nonspace s
  end.

(** The birthday falls on 29 February. *)
Definition on_leap_day (r : Record.t) : bool :=
  match Record.birthday r with
  | Some b =>
      match Birthday.string_to_date (value b) with
      | Return d => (month d =? 2) && (day d =? 29)
      | Raise _ => false
      end
  | None => false
  end.

(** The [ValueError] of [parse_input] on a line without a token. *)
Definition blank_error : exn :=
  ValueError (lit "not enough values to unpack (expected at least 1, got 0)").

(** The [ValueError] of [replace] on 29 February in a year that is not a
    leap year. *)
Definition leap_day_error : exn := ValueError (lit "day is out of range for month").


(** Every birthday that is set passed its validation. *)
Definition birthdays_valid (records : list Record.t) : Prop :=
  Forall (fun r => match Record.birthday r with
                   | Some b => Birthday.validate_date (value b) = true
                   | None => True
                   end) records.

Definition leap_book : AddressBook.t :=
  [person "Leo" "0123456789" "29.02.2000"; person "Ann" "0123456789" "12.06.1990"].

(** A line entered on 10.06.2024. *)
Definition june (line : string) : date * str := (mkdate 2024 6 10, lit line).

(** * Definitions for the calendar

    The loop of [fromordinal] in two parts, the tables of the months by
    leap flag, and the strict order of dates. *)

(** The month and the day of the [n]-th day (from 0) of a year. *)
Definition month_day (n : Z) (leapyear : bool) : Z * Z :=
  let m := Z.shiftr (n + 50) 5 in
  let preceding :=
    nth (Z.to_nat m) DAYS_BEFORE_MONTH 0 + (if (2 <? m) && leapyear then 1 else 0) in
  if n <? preceding then
    let m := m - 1 in
    let preceding :=
      preceding - (nth (Z.to_nat m) DAYS_IN_MONTH 0
                   + (if (m =? 2) && leapyear then 1 else 0)) in
    (m, n - preceding + 1)
  else (m, n - preceding + 1).

(** The month and day of [month_day] are a date of the year whose day
    number is [n + 1]. *)
Definition year_day_ok (leapyear : bool) (n : Z) : bool :=
  let '(m, d) := month_day n leapyear in
  in_range 1 12 m
  && in_range 1 (if (m =? 2) && leapyear then 29 else nth (Z.to_nat m) DAYS_IN_MONTH 0) d
  && (nth (Z.to_nat m) DAYS_BEFORE_MONTH 0 + (if (2 <? m) && leapyear then 1 else 0) + d
      =? n + 1).

Definition dbm_l (leap : bool) (m : Z) : Z :=
  nth (Z.to_nat m) DAYS_BEFORE_MONTH 0 + (if (2 <? m) && leap then 1 else 0).

Definition dim_l (leap : bool) (m : Z) : Z :=
  if (m =? 2) && leap then 29 else nth (Z.to_nat m) DAYS_IN_MONTH 0.

(** [a < b]. *)
Definition date_lt (a b : date) : bool :=
  (year a <? year b)
  || ((year a =? year b)
      && ((month a <? month b) || ((month a =? month b) && (day a <? day b)))).

(** * Properties *)

(** ** The examples of the specification *)

Example add_days_week :
  add_days (mkdate 2024 6 10) 7 = Return (mkdate 2024 6 17)
  /\ add_days (mkdate 2024 12 29) 7 = Return (mkdate 2025 1 5)
  /\ add_days (mkdate 2024 2 25) 7 = Return (mkdate 2024 3 3)
  /\ add_days (mkdate 2023 2 25) 7 = Return (mkdate 2023 3 4)
  /\ add_days (mkdate 9999 12 25) 7 = Raise (OverflowError (lit "date value out of range")).
Proof. repeat split; vm_compute; reflexivity. Qed.

Example strptime_examples :
  strptime (lit "12.06.1990") = Return (mkdate 1990 6 12)
  /\ strptime (lit "1.1.2020") = Return (mkdate 2020 1 1)
  /\ strptime (lit " 1.1.2020") = Return (mkdate 2020 1 1)
  /\ strptime (lit "29.02.2024") = Return (mkdate 2024 2 29)
  /\ strptime [ch "0"; ch "1"; dot; ch "0"; ch "1"; dot; 0x662; 0x660; 0x662; 0x660]
     = Return (mkdate 2020 1 1)
  /\ Birthday.validate_date (lit "29.02.2023") = false
  /\ Birthday.validate_date (lit "31.02.2020") = false
  /\ Birthday.validate_date (lit "2020.01.01") = false
  /\ Birthday.validate_date (lit "1-1-2020") = false
  /\ Birthday.validate_date (lit "01.01.0000") = false
  /\ Birthday.validate_date (lit "01.01.20201") = false
  /\ Birthday.validate_date (lit "01.13.2020") = false.
Proof. repeat split; vm_compute; reflexivity. Qed.

Example happy_path :
  let w0 := empty_world in
  let '(o1, w1) := execute (mkdate 2024 6 10) add [lit "Alice"; lit "0123456789"] w0 in
  let '(o2, w2) := execute (mkdate 2024 6 10) phone [lit "Alice"] w1 in
  let '(o3, w3) := execute (mkdate 2024 6 10) change [lit "Alice"; lit "9876543210"] w2 in
  let '(o4, w4) := execute (mkdate 2024 6 10) phone [lit "Alice"] w3 in
  let '(o5, w5) := execute (mkdate 2024 6 10) phone [lit "Bob"] w4 in
  let '(o6, w6) := execute (mkdate 2024 6 10) birthdays [] w5 in
  o1 = Return (lit "Contact added.")
  /\ o2 = Return (lit "Alice: 0123456789")
  /\ o3 = Return (lit "Phone number updated.")
  /\ o4 = Return (lit "Alice: 9876543210")
  /\ o5 = Return (lit "Contact is not found!")
  /\ o6 = Return (lit "No birthdays in the next week!")
  /\ pkl w6 = Some (book w6).
Proof. vm_compute. repeat split. Qed.

(** The four kinds of reported error, and the text each one becomes. *)
Example reported_errors :
  fst (execute (mkdate 2024 6 10) phone [] empty_world)
  = Return (lit "You haven't entered a contact name or phone!")
  /\ fst (execute (mkdate 2024 6 10) add [lit "Bob"] empty_world)
     = Return (lit "Maybe you forgot enter name or phone?")
  /\ fst (execute (mkdate 2024 6 10) add_birthday [lit "Bob"] empty_world)
     = Return (lit "not enough values to unpack (expected 2, got 1)")
  /\ fst (execute (mkdate 2024 6 10) show_birthday [lit "Bob"] empty_world)
     = Return (lit "Contact is not found!")
  /\ fst (execute (mkdate 2024 6 10) change [lit "Alice"; lit "12345"] alice_with_birthday)
     = Return (lit "Phone number must be 10 digits.")
  /\ fst (execute (mkdate 2024 6 10) add_birthday [lit "Alice"; lit "31.02.2020"]
            alice_with_birthday)
     = Return (lit "Invalid date format. Use DD.MM.YYYY")
  /\ fst (execute (mkdate 2024 6 10) birthdays [] empty_world)
     = Return (lit "No birthdays in the next week!").
Proof. repeat split; vm_compute; reflexivity. Qed.

(** A birthday on 29 February stops the query in a year that is not a
    leap year: [replace] raises, and the command reports its text. *)
Example leap_day_birthday :
  AddressBook.get_upcoming_birthdays (mkdate 2023 2 25) 7
    [person "Leo" "0123456789" "29.02.2000"]
  = Raise (ValueError (lit "day is out of range for month"))
  /\ AddressBook.get_upcoming_birthdays (mkdate 2024 2 25) 7
       [person "Leo" "0123456789" "29.02.2000"]
     = Return [snd (person "Leo" "0123456789" "29.02.2000")].
Proof. split; vm_compute; reflexivity. Qed.

(** In the last week of the year 9999 the end of the window is not a date:
    [OverflowError] has no handler in [input_error]. *)
Example end_of_calendar :
  fst (execute (mkdate 9999 12 30) birthdays []
         (mkWorld [person "Eve" "0123456789" "31.12.1990"] None))
  = Raise (OverflowError (lit "date value out of range")).
Proof. vm_compute. reflexivity. Qed.

(** Ordinals and dates agree on every day from 01.01.1999 to 31.12.2026. *)
Example ordinals_round_trip :
  forallb (fun n => (toordinal (fromordinal n) =? n) && valid_date (fromordinal n))
    (map (fun i => toordinal (mkdate 1999 1 1) + Z.of_nat i) (seq 0 (Z.to_nat 10227))) = true
  /\ fromordinal (toordinal (mkdate 1999 1 1) + 10226) = mkdate 2026 12 31.
Proof. split; vm_compute; reflexivity. Qed.

(** ** Strings and the dictionary *)

Lemma str_eqb_refl (s : str) : str_eqb s s = true.
Proof. induction s as [|c s IH]; simpl; [reflexivity|]. now rewrite Z.eqb_refl. Qed.

Lemma str_eqb_eq (a b : str) : str_eqb a b = true <-> a = b.
Proof.
  split; [|intros ->; apply str_eqb_refl].
  revert b; induction a as [|x a IH]; intros [|y b]; simpl; try discriminate; auto.
  intros H. apply andb_true_iff in H as [Hx Hab].
  apply Z.eqb_eq in Hx. f_equal; auto.
Qed.

Lemma str_eqb_neq (a b : str) : str_eqb a b = false <-> a <> b.
Proof.
  rewrite <- str_eqb_eq. destruct (str_eqb a b); split; congruence.
Qed.

Section Dictionary.

Import AddressBook.

Lemma find_setitem_same key r data :
  find key (setitem key r data) = Some r.
Proof.
  induction data as [|[k r'] data IH]; simpl.
  - now rewrite str_eqb_refl.
  - destruct (str_eqb k key) eqn:E; simpl; rewrite E; auto.
Qed.

Lemma find_setitem_other key key' r data :
  key' <> key -> find key' (setitem key r data) = find key' data.
Proof.
  intros Hne. induction data as [|[k r'] data IH]; simpl.
  - apply str_eqb_neq in Hne. destruct (str_eqb key key') eqn:E; [|reflexivity].
    apply str_eqb_eq in E. apply str_eqb_neq in Hne. congruence.
  - destruct (str_eqb k key) eqn:E; simpl.
    + apply str_eqb_eq in E; subst k.
      destruct (str_eqb key key') eqn:E'; [|reflexivity].
      apply str_eqb_eq in E'. congruence.
    + now rewrite IH.
Qed.

Lemma keys_setitem_present key r r0 data :
  find key data = Some r0 -> keys (setitem key r data) = keys data.
Proof.
  unfold keys. induction data as [|[k r'] data IH]; simpl; [discriminate|].
  destruct (str_eqb k key) eqn:E; simpl; [reflexivity|].
  intros H. f_equal. now apply IH.
Qed.

Lemma setitem_absent key r data :
  find key data = None -> setitem key r data = data ++ [(key, r)].
Proof.
  induction data as [|[k r'] data IH]; simpl; [reflexivity|].
  destruct (str_eqb k key); [discriminate|]. intros H. now rewrite IH.
Qed.

Lemma find_In_keys key r data : find key data = Some r -> In key (keys data).
Proof.
  induction data as [|[k r'] data IH]; simpl; [discriminate|].
  destruct (str_eqb k key) eqn:E; [|auto].
  apply str_eqb_eq in E. auto.
Qed.

Lemma slots_absent key data : ~ In key (keys data) -> slots key data = 0%nat.
Proof.
  unfold slots. induction data as [|[k r] data IH]; simpl; [reflexivity|].
  intros H. destruct (str_eqb k key) eqn:E.
  - apply str_eqb_eq in E. tauto.
  - apply IH. tauto.
Qed.

Lemma slots_NoDup key data :
  NoDup (keys data) -> In key (keys data) -> slots key data = 1%nat.
Proof.
  unfold slots. induction data as [|[k r] data IH]; simpl; [tauto|].
  intros Hnd Hin. inversion Hnd as [|? ? Hk Hnd']; subst.
  destruct (str_eqb k key) eqn:E.
  - apply str_eqb_eq in E; subst k. simpl. f_equal. now apply slots_absent.
  - destruct Hin as [->|Hin]; [now rewrite str_eqb_refl in E|]. now apply IH.
Qed.

Lemma slots_keys key data data' :
  keys data = keys data' -> slots key data = slots key data'.
Proof.
  unfold slots. revert data'.
  induction data as [|[k r] data IH]; intros [|[k' r'] data']; simpl;
    try discriminate; [reflexivity|].
  intros H. injection H as -> H.
  destruct (str_eqb k' key); simpl; [f_equal|]; now apply IH.
Qed.

End Dictionary.

(** ** The command layer *)

Ltac unfold_cmd :=
  unfold execute, AddContact.execute, ChangePhone.execute, GetPhone.execute,
    ShowAll.execute, AddBirthday.execute, ShowBirthday.execute,
    ShowBirthdays.execute, AddContact.body, ChangePhone.body, GetPhone.body,
    ShowAll.body, AddBirthday.body, ShowBirthday.body, ShowBirthdays.body,
    input_error, find, add_record, on_record, save_address_book, get_book,
    put_book, raise, lift;
  cbn [bind ret M_monad outcome_monad fst snd book pkl].

Lemma unpack2_error_is_ValueError args : exists msg, unpack2_error args = ValueError msg.
Proof. unfold unpack2_error. destruct (_ <? _)%nat; eauto. Qed.

Lemma execute_body today c args :
  execute today c args = input_error (body today c args).
Proof. now destruct c. Qed.

Lemma input_error_state (f : M str) (w : World) :
  snd (input_error f w) = snd (f w).
Proof.
  unfold input_error. destruct (f w) as [[s|[| |msg|msg]] w']; reflexivity.
Qed.

Lemma query_body_state today c args w :
  is_query c = true -> snd (body today c args w) = w.
Proof.
  destruct c; try discriminate; intros _; cbn [body]; unfold_cmd.
  - destruct args as [|name rest]; [reflexivity|].
    cbn. now destruct (AddressBook.find name (book w)).
  - reflexivity.
  - destruct args as [|name rest]; [reflexivity|].
    cbn. now destruct (AddressBook.find name (book w)).
  - destruct (AddressBook.get_upcoming_birthdays today 7 (book w)) as [[|r l]|e];
      reflexivity.
Qed.

(** C9.  Get Phone, Show All, Show Birthday and Show Birthdays leave the
    state as it is, the address book and the saved file alike, for every
    argument list, whether they answer or report an error (and also when an
    exception escapes). *)
Theorem queries_do_not_mutate (today : date) (args : list str) (w : World) :
  snd (execute today phone args w) = w
  /\ snd (execute today all args w) = w
  /\ snd (execute today show_birthday args w) = w
  /\ snd (execute today birthdays args w) = w.
Proof.
  split; [|split; [|split]];
    rewrite execute_body, input_error_state; now apply query_body_state.
Qed.

(** C10.  Get Phone on a name whose record has no phone answers
    [N: None] and does not report an error. *)
Theorem get_phone_of_unset_phone (w : World) (N : str) (rest : list str) (r : Record.t) :
  AddressBook.find N (book w) = Some r ->
  Record.phone r = None ->
  GetPhone.execute (N :: rest) w = (Return (N ++ lit ": None"), w).
Proof.
  intros Hfind Hphone. unfold_cmd. cbn. rewrite Hfind.
  unfold Record.phone_str. now rewrite Hphone.
Qed.

Lemma get_phone_of_unset_phone_witness :
  GetPhone.execute [lit "Bob"] bob_without_phone
  = (Return (lit "Bob: None"), bob_without_phone).
Proof.
  apply (get_phone_of_unset_phone bob_without_phone (lit "Bob") []
           (Record.mk (mkField (lit "Bob")) None None)); reflexivity.
Defined.

Lemma validate_nonempty (p : str) : Phone.validate p = true -> p <> [].
Proof. intros H ->. discriminate H. Qed.

Lemma phone_init_valid (p : str) :
  Phone.validate p = true -> Phone.init p = Return (mkField p).
Proof. unfold Phone.init. now intros ->. Qed.

Lemma phone_init_invalid (p : str) :
  Phone.validate p = false ->
  Phone.init p = Raise (ValueError (lit "Phone number must be 10 digits.")).
Proof. unfold Phone.init. now intros ->. Qed.

(** What Add Contact does on a name that has no record yet. *)
Lemma add_contact_new (w : World) (name p : str) (rest : list str) :
  AddressBook.find name (book w) = None ->
  p <> [] ->
  AddContact.body (name :: p :: rest) w
  = match Phone.init p with
    | Return ph =>
        let b := book w ++ [(name, Record.mk (mkField name) (Some ph) None)] in
        (Return (lit "Contact added."), mkWorld b (Some b))
    | Raise e =>
        (Raise e, mkWorld (book w ++ [(name, Record.mk (mkField name) None None)]) (pkl w))
    end.
Proof.
  intros Hfind Hp. unfold_cmd. rewrite Hfind.
  cbn [bind ret M_monad outcome_monad Record.init Name.init lift].
  unfold AddressBook.add_record. cbn [Record.name value book pkl].
  rewrite (setitem_absent _ _ _ Hfind).
  destruct p as [|c p]; [congruence|].
  assert (Hf : AddressBook.find name
                 (book w ++ [(name, Record.mk (mkField name) None None)])
               = Some (Record.mk (mkField name) None None)).
  { rewrite <- (setitem_absent _ _ _ Hfind).
    apply find_setitem_same. }
  cbn [book pkl]. rewrite Hf. unfold Record.add_phone.
  destruct (Phone.init (c :: p)) as [ph|e];
    cbn [bind ret M_monad outcome_monad book pkl Record.name Record.birthday];
    [|reflexivity].
  rewrite <- (setitem_absent _ _ _ Hfind).
  assert (Hs : forall r r' d, AddressBook.setitem name r' (AddressBook.setitem name r d)
                              = AddressBook.setitem name r' d).
  { intros r r' d. induction d as [|[k r0] d IH]; simpl.
    - now rewrite str_eqb_refl.
    - destruct (str_eqb k name) eqn:E; simpl; rewrite E; [reflexivity|].
      now rewrite IH. }
  now rewrite Hs, (setitem_absent _ _ _ Hfind).
Qed.

(** C1.  Add Contact with a name that has no record and a phone that fails
    validation reports the error and nevertheless leaves a record for that
    name, without a phone, in the address book; the file is not saved. *)
Theorem add_contact_invalid_phone_keeps_record
    (w : World) (name p : str) (rest : list str) :
  AddressBook.find name (book w) = None ->
  p <> [] ->
  Phone.validate p = false ->
  AddContact.execute (name :: p :: rest) w
  = (Return (lit "Phone number must be 10 digits."),
     mkWorld (book w ++ [(name, Record.mk (mkField name) None None)]) (pkl w)).
Proof.
  intros Hfind Hp Hinv. unfold AddContact.execute, input_error.
  rewrite (add_contact_new w name p rest Hfind Hp).
  now rewrite (phone_init_invalid p Hinv).
Qed.

Lemma add_contact_invalid_phone_keeps_record_witness :
  let '(o, w') := AddContact.execute [lit "Bob"; lit "123"] empty_world in
  o = Return (lit "Phone number must be 10 digits.")
  /\ AddressBook.find (lit "Bob") (book w')
     = Some (Record.mk (mkField (lit "Bob")) None None)
  /\ book w' <> book empty_world
  /\ pkl w' = None.
Proof.
  rewrite (add_contact_invalid_phone_keeps_record empty_world (lit "Bob") (lit "123") []);
    [|reflexivity|discriminate|reflexivity].
  repeat split. discriminate.
Defined.

(** Apart from Add Contact on a name without a record, a command that
    raises leaves the state as it was. *)
Lemma failure_leaves_state today c args w e :
  fst (body today c args w) = Raise e ->
  snd (body today c args w) = w
  \/ (c = add /\ exists name p rest,
        args = name :: p :: rest /\ AddressBook.find name (book w) = None).
Proof.
  destruct c; cbn [body]; intros H.
  - destruct args as [|name [|p rest]]; [left; reflexivity..|].
    destruct (AddressBook.find name (book w)) as [r|] eqn:Hfind;
      [left|right; split; [reflexivity|]; now exists name, p, rest].
    revert H. unfold_cmd. rewrite Hfind.
    cbn [bind ret M_monad outcome_monad book pkl].
    destruct p as [|ch p]; [discriminate|]. rewrite Hfind.
    unfold Record.add_phone.
    destruct (Phone.init (ch :: p));
      cbn [bind ret M_monad outcome_monad book pkl fst snd]; [discriminate|reflexivity].
  - revert H. unfold_cmd.
    destruct args as [|name [|p [|x rest]]]; try (left; reflexivity).
    destruct (AddressBook.find name (book w)) as [r|] eqn:Hfind; [|left; reflexivity].
    destruct (Phone.validate p) eqn:Hv; cbn [negb]; [|left; reflexivity].
    cbn [bind ret M_monad outcome_monad book pkl]. rewrite Hfind.
    unfold Record.edit_phone. rewrite (phone_init_valid p Hv).
    cbn [bind ret M_monad outcome_monad book pkl fst snd]. discriminate.
  - left. now apply (query_body_state today phone args w).
  - left. now apply (query_body_state today all args w).
  - revert H. unfold_cmd.
    destruct args as [|name [|p [|x rest]]]; try (left; reflexivity).
    destruct (AddressBook.find name (book w)) as [r|] eqn:Hfind; [|left; reflexivity].
    cbn [bind ret M_monad outcome_monad book pkl]. rewrite Hfind.
    unfold Record.add_birthday.
    destruct (Birthday.init p);
      cbn [bind ret M_monad outcome_monad book pkl fst snd]; [discriminate|left; reflexivity].
  - left. now apply (query_body_state today show_birthday args w).
  - left. now apply (query_body_state today birthdays args w).
Qed.

(** What Add Contact does on a name that has a record. *)
Lemma add_contact_existing (w : World) (name p : str) (rest : list str) (r : Record.t) :
  AddressBook.find name (book w) = Some r ->
  Phone.validate p = true ->
  AddContact.body (name :: p :: rest) w
  = let b := AddressBook.setitem name
               (Record.mk (Record.name r) (Some (mkField p)) (Record.birthday r))
               (book w) in
    (Return (lit "Contact updated."), mkWorld b (Some b)).
Proof.
  intros Hfind Hv. unfold_cmd. rewrite Hfind.
  cbn [bind ret M_monad outcome_monad book pkl].
  pose proof (validate_nonempty p Hv) as Hne.
  destruct p as [|c p]; [congruence|]. rewrite Hfind.
  unfold Record.add_phone. rewrite (phone_init_valid _ Hv).
  reflexivity.
Qed.

(** C8.  Add Contact on a name that has a record with a birthday, with a
    valid phone, answers [Contact updated.], replaces the phone and nothing
    else: the record keeps its name and its birthday, the book keeps its
    keys, with exactly one slot for the name, and every other record is
    as before. *)
Theorem add_contact_existing_keeps_birthday
    (w : World) (N p : str) (rest : list str) (r : Record.t) (b : Field) :
  NoDup (AddressBook.keys (book w)) ->
  AddressBook.find N (book w) = Some r ->
  Record.birthday r = Some b ->
  Phone.validate p = true ->
  let o := fst (AddContact.execute (N :: p :: rest) w) in
  let w' := snd (AddContact.execute (N :: p :: rest) w) in
  o = Return (lit "Contact updated.")
  /\ AddressBook.find N (book w')
     = Some (Record.mk (Record.name r) (Some (mkField p)) (Some b))
  /\ slots N (book w') = 1%nat
  /\ AddressBook.keys (book w') = AddressBook.keys (book w)
  /\ (forall k, k <> N -> AddressBook.find k (book w') = AddressBook.find k (book w)).
Proof.
  intros Hnd Hfind Hb Hv o w'. subst o w'.
  unfold AddContact.execute, input_error.
  rewrite (add_contact_existing w N p rest r Hfind Hv), Hb.
  cbn [fst snd book].
  assert (Hk := keys_setitem_present N
                  (Record.mk (Record.name r) (Some (mkField p)) (Some b)) r
                  (book w) Hfind).
  repeat split.
  - apply find_setitem_same.
  - rewrite (slots_keys N _ _ Hk). apply slots_NoDup; [assumption|].
    now apply (find_In_keys N r).
  - exact Hk.
  - intros k Hk'. now apply find_setitem_other.
Qed.

Lemma add_contact_existing_keeps_birthday_witness :
  let w' := snd (AddContact.execute [lit "Alice"; lit "9876543210"] alice_with_birthday) in
  fst (AddContact.execute [lit "Alice"; lit "9876543210"] alice_with_birthday)
  = Return (lit "Contact updated.")
  /\ AddressBook.find (lit "Alice") (book w')
     = Some (Record.mk (mkField (lit "Alice")) (Some (mkField (lit "9876543210")))
               (Some (mkField (lit "12.06.1990"))))
  /\ slots (lit "Alice") (book w') = 1%nat
  /\ AddressBook.keys (book w') = AddressBook.keys (book alice_with_birthday)
  /\ (forall k, k <> lit "Alice" ->
        AddressBook.find k (book w') = AddressBook.find k (book alice_with_birthday)).
Proof.
  apply (add_contact_existing_keeps_birthday alice_with_birthday (lit "Alice")
           (lit "9876543210") []
           (Record.mk (mkField (lit "Alice")) (Some (mkField (lit "0123456789")))
              (Some (mkField (lit "12.06.1990"))))
           (mkField (lit "12.06.1990"))).
  - repeat constructor. simpl. tauto.
  - reflexivity.
  - reflexivity.
  - reflexivity.
Defined.

(** C7 (as the code has it).  [Name] does not validate: constructing a
    name from any string, the empty one included, returns an instance
    that holds the string, and so does the record built around it; Add
    Contact stores a record under any name that has none yet. *)
Theorem name_is_not_validated (v : str) :
  Name.init v = Return (mkField v)
  /\ Field_str (mkField v) = v
  /\ Record.init v = Return (Record.mk (mkField v) None None)
  /\ (forall (p : str) (w : World),
        Phone.validate p = true ->
        AddressBook.find v (book w) = None ->
        fst (AddContact.execute [v; p] w) = Return (lit "Contact added.")
        /\ AddressBook.find v (book (snd (AddContact.execute [v; p] w)))
           = Some (Record.mk (mkField v) (Some (mkField p)) None)).
Proof.
  split; [reflexivity|split; [reflexivity|split; [reflexivity|]]].
  intros p w Hv Hfind. unfold AddContact.execute, input_error.
  rewrite (add_contact_new w v p [] Hfind (validate_nonempty p Hv)).
  rewrite (phone_init_valid p Hv). cbn [fst snd book]. split; [reflexivity|].
  rewrite <- (setitem_absent _ _ _ Hfind). apply find_setitem_same.
Qed.

(** C7 (as the spec has it) fails: the empty string makes a name. *)
Lemma name_accepts_empty_string :
  returns (Name.init (lit "")) = true
  /\ Name.init (lit "") = Return (mkField []).
Proof. split; reflexivity. Qed.

(** ** Phone numbers *)

Lemma decimal_in_above (runs : list Z) (c : Z) :
  Forall (fun b => c < b) runs -> decimal_in runs c = None.
Proof.
  induction 1 as [|b runs Hb _ IH]; simpl; [reflexivity|].
  unfold in_range. destruct (b <=? c) eqn:E; [apply Z.leb_le in E; lia|]. exact IH.
Qed.

Lemma decimal_value_ascii (c : Z) :
  is_ascii c = true ->
  decimal_value c = if is_ascii_digit c then Some (c - 48) else None.
Proof.
  unfold is_ascii, is_ascii_digit, in_range. intros H.
  apply andb_true_iff in H as [H0 H1]. apply Z.leb_le in H0, H1.
  unfold decimal_value.
  change (decimal_in decimal_runs c)
    with (if in_range 48 57 c then Some (c - 48) else decimal_in (tl decimal_runs) c).
  unfold in_range.
  destruct ((48 <=? c) && (c <=? 57)); [reflexivity|].
  apply decimal_in_above.
  assert (Hall : forallb (fun b => 127 <? b) (tl decimal_runs) = true)
    by (vm_compute; reflexivity).
  rewrite forallb_forall in Hall. apply Forall_forall.
  intros b Hb. specialize (Hall b Hb). apply Z.ltb_lt in Hall. lia.
Qed.

Lemma isdigit_char_ascii (c : Z) :
  is_ascii c = true -> isdigit_char c = is_ascii_digit c.
Proof.
  intros H. unfold isdigit_char, isdecimal_char.
  rewrite (decimal_value_ascii c H).
  destruct (is_ascii_digit c); [reflexivity|]. cbn [orb].
  unfold is_ascii, in_range in H.
  apply andb_true_iff in H as [H0 H1]. apply Z.leb_le in H0, H1.
  assert (Hall : forallb (fun r => 127 <? fst r) digit_ranges = true)
    by (vm_compute; reflexivity).
  rewrite forallb_forall in Hall.
  destruct (existsb _ digit_ranges) eqn:E; [|reflexivity].
  apply existsb_exists in E as [r [Hr Hin]].
  specialize (Hall r Hr). apply Z.ltb_lt in Hall.
  unfold in_range in Hin. apply andb_true_iff in Hin as [Hlo _].
  apply Z.leb_le in Hlo. lia.
Qed.

Lemma forallb_ext_in {A} (f g : A -> bool) (l : list A) :
  (forall x, In x l -> f x = g x) -> forallb f l = forallb g l.
Proof.
  induction l as [|x l IH]; simpl; [reflexivity|].
  intros H. rewrite (H x (or_introl eq_refl)). f_equal. apply IH. auto.
Qed.

Lemma validate_iff (s : str) :
  Phone.validate s = true
  <-> List.length s = 10%nat /\ forallb isdigit_char s = true.
Proof.
  unfold Phone.validate, isdigit. rewrite andb_true_iff, Nat.eqb_eq.
  destruct s as [|c s]; [simpl; split; intros [? ?]; discriminate|].
  tauto.
Qed.

(** C2 (as the spec has it) fails: a string of ten digits none of which is
    ASCII makes a phone number. *)
Lemma phone_accepts_non_ascii_digits :
  Phone.init arabic_indic_phone = Return (mkField arabic_indic_phone)
  /\ List.length arabic_indic_phone = 10%nat
  /\ forallb (fun c => negb (is_ascii c)) arabic_indic_phone = true.
Proof. repeat split. Qed.

(** C2 (as the code has it).  Constructing a phone number succeeds exactly
    on the strings of ten characters that are all digits in the sense of
    [str.isdigit], and raises [ValueError] on every other string.  On
    strings of ASCII characters these are exactly the strings of ten
    decimal digits [0] ... [9]; a string with a character that is not a
    digit (a letter, punctuation) or of another length is rejected. *)
Theorem phone_init_iff (s : str) :
  (Phone.init s = Return (mkField s)
   <-> List.length s = 10%nat /\ forallb isdigit_char s = true)
  /\ (Phone.init s = Return (mkField s)
      \/ Phone.init s = Raise (ValueError (lit "Phone number must be 10 digits.")))
  /\ (forallb is_ascii s = true ->
      (Phone.init s = Return (mkField s)
       <-> List.length s = 10%nat /\ forallb is_ascii_digit s = true))
  /\ (forallb is_ascii_digit s = true -> List.length s = 10%nat ->
      Phone.init s = Return (mkField s)).
Proof.
  assert (Hinit : Phone.init s = Return (mkField s) <-> Phone.validate s = true).
  { unfold Phone.init. destruct (Phone.validate s); cbn [negb]; split;
      congruence. }
  split; [|split; [|split]].
  - rewrite Hinit. apply validate_iff.
  - unfold Phone.init. destruct (Phone.validate s); cbn [negb]; auto.
  - intros Hascii. rewrite Hinit, validate_iff.
    rewrite (forallb_ext_in isdigit_char is_ascii_digit s); [tauto|].
    intros c Hc. apply isdigit_char_ascii.
    rewrite forallb_forall in Hascii. auto.
  - intros Hd Hlen. rewrite Hinit, validate_iff. split; [assumption|].
    rewrite (forallb_ext_in isdigit_char is_ascii_digit s); [assumption|].
    intros c Hc. apply isdigit_char_ascii.
    rewrite forallb_forall in Hd. specialize (Hd c Hc).
    unfold is_ascii_digit, is_ascii, in_range in *.
    apply andb_true_iff in Hd as [H0 H1]. apply Z.leb_le in H0, H1.
    apply andb_true_iff. split; apply Z.leb_le; lia.
Qed.

(** ** The birthday window *)

Lemma date_new_Return y m d x :
  date_new y m d = Return x -> x = mkdate y m d /\ valid_date x = true.
Proof.
  unfold date_new, valid_date.
  destruct (in_range MINYEAR MAXYEAR y) eqn:Ey; cbn [negb]; [|discriminate].
  destruct (in_range 1 12 m) eqn:Em; cbn [negb]; [|discriminate].
  destruct (in_range 1 (days_in_month y m) d) eqn:Ed; cbn [negb]; [|discriminate].
  intros [= <-]. cbn [year month day]. now rewrite Ey, Em, Ed.
Qed.

Lemma date_new_valid y m d :
  valid_date (mkdate y m d) = true -> date_new y m d = Return (mkdate y m d).
Proof.
  unfold date_new, valid_date. cbn [year month day].
  intros H. apply andb_true_iff in H as [H Hd]. apply andb_true_iff in H as [Hy Hm].
  now rewrite Hy, Hm, Hd.
Qed.

Lemma date_new_raises_ValueError y m d e :
  date_new y m d = Raise e -> exists msg, e = ValueError msg.
Proof.
  unfold date_new.
  repeat match goal with |- context [negb ?b] => destruct b; cbn [negb] end;
    intros [= <-]; eauto.
Qed.

Lemma strptime_raises_ValueError s e :
  strptime s = Raise e -> exists msg, e = ValueError msg.
Proof.
  unfold strptime.
  destruct (match_dmY s) as [[[[d m] y] [|c rest]]|]; try (intros [= <-]; eauto).
  destruct (int_of y), (int_of m), (int_of d); try (intros [= <-]; eauto).
  apply date_new_raises_ValueError.
Qed.

Section Window.

Variables (today : date) (days : Z).

Import AddressBook.

Lemma upcoming_loop_step (acc : list Record.t) (r : Record.t) (records : list Record.t) :
  upcoming_loop today days acc (r :: records)
  = match Record.birthday r, anchored today r with
    | None, _ => upcoming_loop today days acc records
    | Some b, None =>
        bday <- Birthday.string_to_date (value b) ;;
        a <- replace_year bday (year today) ;; Return []
    | Some _, Some a =>
        if date_le today a then
          limit <- add_days today days ;;
          upcoming_loop today days (if in_window today days r then acc ++ [r] else acc)
            records
        else upcoming_loop today days (if in_window today days r then acc ++ [r] else acc)
               records
    end.
Proof.
  cbn [upcoming_loop]. unfold in_window, anchored.
  destruct (Record.birthday r) as [b|]; [|reflexivity].
  destruct (Birthday.string_to_date (value b)) as [bday|e];
    cbn [bind outcome_monad]; [|reflexivity].
  destruct (replace_year bday (year today)) as [a|e];
    cbn [bind outcome_monad]; [|reflexivity].
  destruct (date_le today a); cbn [andb].
  - destruct (add_days today days) as [limit|e]; cbn [bind outcome_monad];
      [now destruct (date_le a limit)|reflexivity].
  - destruct (add_days today days); reflexivity.
Qed.

Lemma filter_step (acc : list Record.t) (r : Record.t) (records : list Record.t) :
  acc ++ filter (in_window today days) (r :: records)
  = (if in_window today days r then acc ++ [r] else acc)
      ++ filter (in_window today days) records.
Proof.
  cbn [filter]. destruct (in_window today days r); [|reflexivity].
  now rewrite <- app_assoc.
Qed.

Lemma upcoming_loop_Return records : forall acc l,
  upcoming_loop today days acc records = Return l ->
  l = acc ++ filter (in_window today days) records.
Proof.
  induction records as [|r records IH]; intros acc l.
  - cbn. intros [= <-]. now rewrite app_nil_r.
  - rewrite upcoming_loop_step, filter_step.
    destruct (Record.birthday r) as [b|] eqn:Hb.
    + destruct (anchored today r) as [a|] eqn:Ha.
      * destruct (date_le today a); [|apply IH].
        destruct (add_days today days); cbn [bind outcome_monad];
          [apply IH|discriminate].
      * unfold anchored in Ha. rewrite Hb in Ha.
        destruct (Birthday.string_to_date (value b)) as [d|];
          cbn [bind outcome_monad]; [|discriminate].
        destruct (replace_year d (year today)); cbn [bind outcome_monad];
          discriminate.
    + unfold in_window, anchored. rewrite Hb. apply IH.
Qed.

Lemma upcoming_loop_total limit records : forall acc,
  add_days today days = Return limit ->
  (forall r, In r records -> Record.birthday r <> None -> anchored today r <> None) ->
  upcoming_loop today days acc records
  = Return (acc ++ filter (in_window today days) records).
Proof.
  induction records as [|r records IH]; intros acc Hlim Hall.
  - cbn. now rewrite app_nil_r.
  - assert (Hrest : forall r', In r' records -> Record.birthday r' <> None ->
                               anchored today r' <> None)
      by (intros r' Hin; apply Hall; now right).
    specialize (Hall r (or_introl eq_refl)).
    rewrite upcoming_loop_step, filter_step.
    destruct (Record.birthday r) as [b|] eqn:Hb.
    + destruct (anchored today r) as [a|] eqn:Ha;
        [|exfalso; apply Hall; [discriminate|reflexivity]].
      rewrite Hlim. cbn [bind outcome_monad].
      destruct (date_le today a); now apply IH.
    + unfold in_window, anchored. rewrite Hb. now apply IH.
Qed.

Lemma upcoming_loop_raises limit records : forall acc e,
  add_days today days = Return limit ->
  upcoming_loop today days acc records = Raise e ->
  exists msg, e = ValueError msg.
Proof.
  induction records as [|r records IH]; intros acc e Hlim; cbn [upcoming_loop];
    [discriminate|].
  destruct (Record.birthday r) as [b|]; [|now apply IH].
  unfold Birthday.string_to_date.
  destruct (strptime (value b)) as [bday|e'] eqn:Es; cbn [bind outcome_monad];
    [|intros [= <-]; now apply (strptime_raises_ValueError (value b))].
  unfold replace_year.
  destruct (date_new _ _ _) as [a|e'] eqn:Ed; cbn [bind outcome_monad];
    [|intros [= <-]; now apply (date_new_raises_ValueError _ _ _ _ Ed)].
  rewrite Hlim. cbn [bind outcome_monad].
  destruct (date_le today a); [|now apply IH].
  destruct (date_le a limit); now apply IH.
Qed.

Lemma in_window_iff (r : Record.t) :
  in_window today days r = true
  <-> exists b bday limit,
        Record.birthday r = Some b
        /\ Birthday.string_to_date (value b) = Return bday
        /\ valid_date (mkdate (year today) (month bday) (day bday)) = true
        /\ add_days today days = Return limit
        /\ date_le today (mkdate (year today) (month bday) (day bday)) = true
        /\ date_le (mkdate (year today) (month bday) (day bday)) limit = true.
Proof.
  unfold in_window, anchored, replace_year. split.
  - destruct (Record.birthday r) as [b|]; [|discriminate].
    destruct (Birthday.string_to_date (value b)) as [bday|] eqn:Es; [|discriminate].
    destruct (date_new _ _ _) as [a|] eqn:Ea; [|discriminate].
    apply date_new_Return in Ea as [-> Hv].
    destruct (add_days today days) as [limit|]; [|discriminate].
    intros H. apply andb_true_iff in H as [H1 H2].
    exists b, bday, limit. repeat split; assumption.
  - intros (b & bday & limit & -> & -> & Hv & -> & H1 & H2).
    rewrite (date_new_valid _ _ _ Hv). now rewrite H1, H2.
Qed.

End Window.

Lemma days_before_month_bounds y m :
  1 <= m <= 12 -> 0 <= days_before_month y m <= 335.
Proof.
  intros Hm. unfold days_before_month.
  assert (H : m = 1 \/ m = 2 \/ m = 3 \/ m = 4 \/ m = 5 \/ m = 6 \/ m = 7
              \/ m = 8 \/ m = 9 \/ m = 10 \/ m = 11 \/ m = 12) by lia.
  destruct (is_leap y);
    repeat (destruct H as [->|H]; [vm_compute; split; discriminate|]);
    subst; vm_compute; split; discriminate.
Qed.

Lemma days_in_month_bounds y m : 1 <= m <= 12 -> 28 <= days_in_month y m <= 31.
Proof.
  intros Hm. unfold days_in_month.
  assert (H : m = 1 \/ m = 2 \/ m = 3 \/ m = 4 \/ m = 5 \/ m = 6 \/ m = 7
              \/ m = 8 \/ m = 9 \/ m = 10 \/ m = 11 \/ m = 12) by lia.
  destruct (is_leap y);
    repeat (destruct H as [->|H]; [vm_compute; split; discriminate|]);
    subst; vm_compute; split; discriminate.
Qed.

Lemma valid_date_fields d :
  valid_date d = true ->
  1 <= year d <= 9999 /\ 1 <= month d <= 12
  /\ 1 <= day d <= days_in_month (year d) (month d).
Proof.
  unfold valid_date, in_range, MINYEAR, MAXYEAR. intros H.
  repeat (apply andb_true_iff in H as [H ?]).
  repeat match goal with H : (_ <=? _) = true |- _ => apply Z.leb_le in H end.
  lia.
Qed.

(** A week after any date before the last year of the calendar is a date. *)
Lemma add_days_week_ok (today : date) :
  valid_date today = true -> year today < 9999 ->
  exists limit, add_days today 7 = Return limit.
Proof.
  intros Hv Hy. apply valid_date_fields in Hv as (Hyr & Hm & Hd).
  pose proof (days_before_month_bounds (year today) (month today) Hm) as Hbm.
  pose proof (days_in_month_bounds (year today) (month today) Hm) as Hdim.
  unfold add_days, toordinal, MAXORDINAL.
  assert (Hby : 0 <= days_before_year (year today) <= 3651428).
  { unfold days_before_year. cbv zeta.
    pose proof (Z.div_le_mono (year today - 1) 9997 4 ltac:(lia) ltac:(lia)) as H4.
    pose proof (Z.div_le_mono 0 (year today - 1) 400 ltac:(lia) ltac:(lia)) as H400.
    pose proof (Z.div_le_mono (year today - 1) 9997 400 ltac:(lia) ltac:(lia)) as H400'.
    pose proof (Z.div_le_mono 0 (year today - 1) 100 ltac:(lia) ltac:(lia)) as H100.
    assert (H4100 : (year today - 1) / 100 <= (year today - 1) / 4).
    { apply Z.div_le_compat_l; lia. }
    change (9997 / 4) with 2499 in H4. change (9997 / 400) with 24 in H400'.
    change (0 / 400) with 0 in H400. change (0 / 100) with 0 in H100.
    lia. }
  match goal with |- context [if ?c then _ else _] => assert (Hc : c = true) end.
  { apply andb_true_iff. split; [apply Z.ltb_lt|apply Z.leb_le]; lia. }
  rewrite Hc. eauto.
Qed.

(** C3.  When the query answers, its answer is the records of the book,
    in the order of the book, whose birthday, re-anchored to the current
    year, lies between today and today plus the number of days, both ends
    included; a record with a birthday is in the answer exactly when its
    anchored date does.  The query answers whenever every birthday of the
    book can be re-anchored and the end of the window is a date.  With
    today = 10.06.2024 and seven days, 12.06.1990 qualifies, 20.06.1990 and
    05.06.1990 do not, and the ends 10.06 and 17.06 qualify. *)
Theorem upcoming_birthdays_window :
  (forall today days data l,
     AddressBook.get_upcoming_birthdays today days data = Return l ->
     l = filter (in_window today days) (AddressBook.values data)
     /\ forall r, In r (AddressBook.values data) ->
          (In r l <-> in_window today days r = true))
  /\ (forall today days r,
        in_window today days r = true
        <-> exists b bday limit,
              Record.birthday r = Some b
              /\ Birthday.string_to_date (value b) = Return bday
              /\ valid_date (mkdate (year today) (month bday) (day bday)) = true
              /\ add_days today days = Return limit
              /\ date_le today (mkdate (year today) (month bday) (day bday)) = true
              /\ date_le (mkdate (year today) (month bday) (day bday)) limit = true)
  /\ (forall today days limit data,
        add_days today days = Return limit ->
        (forall r, In r (AddressBook.values data) ->
           Record.birthday r <> None -> anchored today r <> None) ->
        AddressBook.get_upcoming_birthdays today days data
        = Return (filter (in_window today days) (AddressBook.values data)))
  /\ AddressBook.get_upcoming_birthdays (mkdate 2024 6 10) 7 june_book
     = Return (map snd [ person "Ann" "0123456789" "12.06.1990";
                         person "Dan" "0123456789" "10.06.2000";
                         person "Eve" "0123456789" "17.06.1985" ]).
Proof.
  split; [|split; [|split]].
  - intros today days data l H.
    apply upcoming_loop_Return in H. cbn [app] in H. split; [exact H|].
    intros r Hin. subst l. rewrite filter_In. tauto.
  - apply in_window_iff.
  - intros today days limit data Hlim Hall.
    unfold AddressBook.get_upcoming_birthdays.
    now rewrite (upcoming_loop_total today days limit _ [] Hlim Hall).
  - vm_compute. reflexivity.
Qed.

(** C4.  A record in the answer of the query has a birthday whose month
    and day are not before today's, whatever the length of the window: the
    anchored date is always in the current year, so the window never
    reaches a birthday early in the next year.  With today = 29.12.2024
    and seven days, the birthday 02.01 is not returned, although
    02.01.2025 lies between today and 05.01.2025, the end of the window. *)
Theorem upcoming_birthdays_miss_next_year :
  (forall today days data l r b bday,
     AddressBook.get_upcoming_birthdays today days data = Return l ->
     In r l ->
     Record.birthday r = Some b ->
     Birthday.string_to_date (value b) = Return bday ->
     month today < month bday
     \/ (month today = month bday /\ day today <= day bday))
  /\ add_days (mkdate 2024 12 29) 7 = Return (mkdate 2025 1 5)
  /\ date_le (mkdate 2024 12 29) (mkdate 2025 1 2) = true
  /\ date_le (mkdate 2025 1 2) (mkdate 2025 1 5) = true
  /\ AddressBook.get_upcoming_birthdays (mkdate 2024 12 29) 7 december_book = Return []
  /\ ShowBirthdays.execute (mkdate 2024 12 29) [] (mkWorld december_book None)
     = (Return (lit "No birthdays in the next week!"), mkWorld december_book None).
Proof.
  split; [|repeat split].
  intros today days data l r b bday H Hin Hb Hs.
  apply upcoming_loop_Return in H. cbn [app] in H. subst l.
  apply filter_In in Hin as [_ Hw].
  apply in_window_iff in Hw as (b' & bday' & limit & Hb' & Hs' & _ & _ & Hle & _).
  rewrite Hb in Hb'. injection Hb' as <-. rewrite Hs in Hs'. injection Hs' as <-.
  unfold date_le in Hle. cbn [year month day] in Hle.
  rewrite Z.ltb_irrefl, Z.eqb_refl in Hle. cbn [orb andb] in Hle.
  apply orb_true_iff in Hle as [Hlt|Heq].
  - left. now apply Z.ltb_lt.
  - right. apply andb_true_iff in Heq as [Hm Hd].
    apply Z.eqb_eq in Hm. apply Z.leb_le in Hd. now split.
Qed.

(** ** The command boundary *)

Lemma input_error_caught (f : M str) (w : World) :
  (forall e, fst (f w) = Raise e -> caught e = true) ->
  exists msg, fst (input_error f w) = Return msg.
Proof.
  unfold input_error. destruct (f w) as [[s|e] w']; cbn [fst]; intros H; [eauto|].
  specialize (H e eq_refl). destruct e; cbn [fst]; eauto. discriminate.
Qed.

Lemma phone_init_raises p e : Phone.init p = Raise e -> caught e = true.
Proof. unfold Phone.init. destruct (negb _); [intros [= <-]; reflexivity|discriminate]. Qed.

Lemma birthday_init_raises v e : Birthday.init v = Raise e -> caught e = true.
Proof.
  unfold Birthday.init. destruct (negb _); [intros [= <-]; reflexivity|discriminate].
Qed.

Lemma unpack2_error_caught args : caught (unpack2_error args) = true.
Proof. destruct (unpack2_error_is_ValueError args) as [msg ->]. reflexivity. Qed.

Lemma body_raises_caught today limit c args w e :
  add_days today 7 = Return limit ->
  fst (body today c args w) = Raise e -> caught e = true.
Proof.
  intros Hlim. destruct c; cbn [body].
  - destruct args as [|name [|p rest]]; try (intros [= <-]; reflexivity).
    destruct p as [|ch p].
    { unfold_cmd.
      destruct (AddressBook.find name (book w));
        cbn [bind ret M_monad outcome_monad Record.init Name.init book pkl fst];
        discriminate. }
    destruct (AddressBook.find name (book w)) as [r|] eqn:Hfind.
    + unfold_cmd. rewrite Hfind.
      cbn [bind ret M_monad outcome_monad book pkl]. rewrite Hfind.
      unfold Record.add_phone.
      destruct (Phone.init (ch :: p)) eqn:Hp;
        cbn [bind ret M_monad outcome_monad book pkl fst]; [discriminate|].
      intros [= <-]. now apply (phone_init_raises (ch :: p)).
    + rewrite (add_contact_new w name (ch :: p) rest Hfind ltac:(discriminate)).
      destruct (Phone.init (ch :: p)) eqn:Hp; cbn [fst]; [discriminate|].
      intros [= <-]. now apply (phone_init_raises (ch :: p)).
  - unfold_cmd.
    destruct args as [|name [|p [|x rest]]]; try (intros [= <-]; reflexivity).
    destruct (AddressBook.find name (book w)) as [r|] eqn:Hfind;
      [|intros [= <-]; reflexivity].
    destruct (Phone.validate p) eqn:Hv; cbn [negb]; [|intros [= <-]; reflexivity].
    cbn [bind ret M_monad outcome_monad book pkl]. rewrite Hfind.
    unfold Record.edit_phone. rewrite (phone_init_valid p Hv). discriminate.
  - unfold_cmd.
    destruct args as [|name rest]; [intros [= <-]; reflexivity|].
    cbn [bind ret M_monad outcome_monad book pkl].
    destruct (AddressBook.find name (book w)); [discriminate|intros [= <-]; reflexivity].
  - unfold_cmd. discriminate.
  - unfold_cmd.
    destruct args as [|name [|p [|x rest]]];
      try (intros [= <-]; apply unpack2_error_caught).
    destruct (AddressBook.find name (book w)) as [r|] eqn:Hfind;
      [|intros [= <-]; reflexivity].
    cbn [bind ret M_monad outcome_monad book pkl]. rewrite Hfind.
    unfold Record.add_birthday.
    destruct (Birthday.init p) eqn:Hb;
      cbn [bind ret M_monad outcome_monad book pkl fst]; [discriminate|].
    intros [= <-]. now apply (birthday_init_raises p).
  - unfold_cmd.
    destruct args as [|name rest]; [intros [= <-]; reflexivity|].
    cbn [bind ret M_monad outcome_monad book pkl].
    destruct (AddressBook.find name (book w)); [discriminate|intros [= <-]; reflexivity].
  - unfold_cmd. unfold AddressBook.get_upcoming_birthdays.
    destruct (AddressBook.upcoming_loop today 7 [] _) as [[|r l]|e'] eqn:Hl;
      cbn [fst]; try discriminate; intros [= <-]; [reflexivity|].
    destruct (upcoming_loop_raises today 7 limit _ _ _ Hlim Hl) as [msg ->].
    reflexivity.
Qed.





(** ** Birthday dates *)

Section Matcher.

Context {A : Type}.

Lemma rmatch_sound (r : regex) : forall (s : str) (k : str -> option A) (a : A),
  rmatch r s k = Some a ->
  exists p rest, s = p ++ rest /\ lang r p /\ k rest = Some a.
Proof.
  induction r as [c|lo hi| |r1 IH1 r2 IH2|r1 IH1 r2 IH2]; intros s k a; cbn [rmatch lang].
  - destruct s as [|x s]; [discriminate|].
    destruct (x =? c) eqn:E; [|discriminate]. apply Z.eqb_eq in E; subst x.
    intros H. now exists [c], s.
  - destruct s as [|x s]; [discriminate|].
    destruct (in_range lo hi x) eqn:E; [|discriminate].
    intros H. exists [x], s. eauto.
  - destruct s as [|x s]; [discriminate|].
    destruct (isdecimal_char x) eqn:E; [|discriminate].
    intros H. exists [x], s. eauto.
  - intros H. apply IH1 in H as (p1 & rest1 & -> & H1 & H).
    apply IH2 in H as (p2 & rest & -> & H2 & H).
    exists (p1 ++ p2), rest. rewrite <- app_assoc. eauto 10.
  - destruct (rmatch r1 s k) as [a'|] eqn:E.
    + intros [= ->]. apply IH1 in E as (p & rest & -> & H1 & H). eauto 10.
    + intros H. apply IH2 in H as (p & rest & -> & H2 & H). eauto 10.
Qed.

Lemma rmatch_complete (r : regex) : forall (p rest : str) (k : str -> option A) (a : A),
  lang r p -> k rest = Some a -> exists a', rmatch r (p ++ rest) k = Some a'.
Proof.
  induction r as [c|lo hi| |r1 IH1 r2 IH2|r1 IH1 r2 IH2]; intros p rest k a;
    cbn [rmatch lang].
  - intros -> Hk. cbn. rewrite Z.eqb_refl. eauto.
  - intros (x & -> & Hx) Hk. cbn. rewrite Hx. eauto.
  - intros (x & -> & Hx) Hk. cbn. rewrite Hx. eauto.
  - intros (p1 & p2 & -> & H1 & H2) Hk.
    destruct (IH2 p2 rest k a H2 Hk) as [a2 Ha2].
    rewrite <- app_assoc.
    apply (IH1 p1 (p2 ++ rest) (fun s' => rmatch r2 s' k) a2 H1 Ha2).
  - intros [H1|H2] Hk.
    + destruct (IH1 p rest k a H1 Hk) as [a1 ->]. eauto.
    + destruct (rmatch r1 (p ++ rest) k); eauto.
Qed.

End Matcher.

Lemma lang_excludes (c : Z) (r : regex) : forall p,
  excludes c r = true -> lang r p -> ~ In c p.
Proof.
  induction r as [x|lo hi| |r1 IH1 r2 IH2|r1 IH1 r2 IH2]; intros p; cbn [excludes lang].
  - intros Hx -> [->|[]]. now rewrite Z.eqb_refl in Hx.
  - intros Hx (y & -> & Hy) [->|[]]. now rewrite Hy in Hx.
  - intros Hx (y & -> & Hy) [->|[]]. now rewrite Hy in Hx.
  - intros Hx (p1 & p2 & -> & H1 & H2) Hin.
    apply andb_true_iff in Hx as [Hx1 Hx2].
    apply in_app_or in Hin as [Hin|Hin]; [now apply (IH1 p1)|now apply (IH2 p2)].
  - intros Hx [H1|H2]; apply andb_true_iff in Hx as [Hx1 Hx2]; auto.
Qed.

Lemma split_at_unique (c : Z) : forall (p1 p2 r1 r2 : str),
  ~ In c p1 -> ~ In c p2 -> p1 ++ c :: r1 = p2 ++ c :: r2 -> p1 = p2 /\ r1 = r2.
Proof.
  induction p1 as [|x p1 IH]; intros [|y p2] r1 r2 H1 H2; cbn [app].
  - intros [= ->]. auto.
  - intros [= <- _]. exfalso. apply H2. now left.
  - intros [= -> _]. exfalso. apply H1. now left.
  - intros [= -> H]. apply IH in H as [-> ->]; [auto| |].
    + intros Hin. apply H1. now right.
    + intros Hin. apply H2. now right.
Qed.

Lemma lang_re_Y_length (y : str) : lang re_Y y -> List.length y = 4%nat.
Proof.
  cbn [re_Y lang].
  intros (p1 & q1 & -> & (x1 & -> & _) & p2 & q2 & -> & (x2 & -> & _)
          & p3 & p4 & -> & (x3 & -> & _) & (x4 & -> & _)).
  reflexivity.
Qed.

Lemma taken_app (p rest : str) : taken (p ++ rest) rest = p.
Proof.
  unfold taken. rewrite length_app, Nat.add_sub. 
  rewrite firstn_app, Nat.sub_diag, firstn_all. cbn. apply app_nil_r.
Qed.

Lemma match_dmY_sound (s d m y rest : str) :
  match_dmY s = Some (d, m, y, rest) ->
  s = d ++ dot :: m ++ dot :: y ++ rest
  /\ lang re_d d /\ lang re_m m /\ lang re_Y y.
Proof.
  unfold match_dmY. intros H.
  apply rmatch_sound in H as (pd & s1 & -> & Hd & H).
  apply rmatch_sound in H as (? & s2 & -> & -> & H).
  apply rmatch_sound in H as (pm & s3 & -> & Hm & H).
  apply rmatch_sound in H as (? & s4 & -> & -> & H).
  apply rmatch_sound in H as (py & s5 & -> & Hy & H).
  rewrite !taken_app in H. injection H as <- <- <- <-.
  cbn [app]. auto.
Qed.

Lemma match_dmY_complete (d m y rest : str) :
  lang re_d d -> lang re_m m -> lang re_Y y ->
  match_dmY (d ++ dot :: m ++ dot :: y ++ rest) = Some (d, m, y, rest).
Proof.
  intros Hd Hm Hy.
  assert (Hex : exists a, match_dmY (d ++ dot :: m ++ dot :: y ++ rest) = Some a).
  { unfold match_dmY.
    set (s := d ++ dot :: m ++ dot :: y ++ rest).
    set (s1 := dot :: m ++ dot :: y ++ rest).
    set (s2 := m ++ dot :: y ++ rest).
    set (s3 := dot :: y ++ rest).
    destruct (rmatch_complete re_Y y rest
                (fun s5 => Some (taken s s1, taken s2 s3, taken (y ++ rest) s5, s5))
                _ Hy eq_refl) as [a5 H5].
    destruct (rmatch_complete re_m m s3
                (fun s3 => rmatch (Chr dot) s3 (fun s4 => rmatch re_Y s4 (fun s5 =>
                   Some (taken s s1, taken s2 s3, taken s4 s5, s5))))
                a5 Hm) as [a3 H3].
    { subst s3. cbn [rmatch]. rewrite Z.eqb_refl. exact H5. }
    apply (rmatch_complete re_d d s1 _ a3 Hd).
    subst s1. cbn [rmatch]. rewrite Z.eqb_refl. exact H3. }
  destruct Hex as [[[[d' m'] y'] rest'] H]. rewrite H.
  apply match_dmY_sound in H as (Heq & Hd' & Hm' & Hy').
  assert (Hxd : excludes dot re_d = true) by (vm_compute; reflexivity).
  assert (Hxm : excludes dot re_m = true) by (vm_compute; reflexivity).
  apply split_at_unique in Heq as [<- Heq];
    [|now apply (lang_excludes dot re_d)|now apply (lang_excludes dot re_d)].
  apply split_at_unique in Heq as [<- Heq];
    [|now apply (lang_excludes dot re_m)|now apply (lang_excludes dot re_m)].
  apply lang_re_Y_length in Hy, Hy'.
  assert (y = y' /\ rest = rest') as [<- <-]; [|reflexivity].
  clear -Heq Hy Hy'.
  destruct y as [|a1 [|a2 [|a3 [|a4 [|]]]]]; try discriminate.
  destruct y' as [|b1 [|b2 [|b3 [|b4 [|]]]]]; try discriminate.
  now injection Heq as -> -> -> -> ->.
Qed.

Ltac norm_ch :=
  repeat match goal with
         | |- context [ch ?a] =>
             let v := eval vm_compute in (ch a) in change (ch a) with v
         end.

Lemma ascii_digit_range c : is_ascii_digit c = true <-> 48 <= c <= 57.
Proof.
  unfold is_ascii_digit, in_range. rewrite andb_true_iff, !Z.leb_le. tauto.
Qed.

Lemma in_range_iff lo hi c : in_range lo hi c = true <-> lo <= c <= hi.
Proof. unfold in_range. rewrite andb_true_iff, !Z.leb_le. tauto. Qed.

Lemma decimal_value_digit c :
  is_ascii_digit c = true -> decimal_value c = Some (digit_of c).
Proof.
  intros H. rewrite decimal_value_ascii, H; [reflexivity|].
  apply ascii_digit_range in H. apply in_range_iff. lia.
Qed.

Lemma isdecimal_digit c : is_ascii_digit c = true -> isdecimal_char c = true.
Proof. intros H. unfold isdecimal_char. now rewrite (decimal_value_digit c H). Qed.

Lemma isspace_digit c : is_ascii_digit c = true -> isspace_char c = false.
Proof.
  intros H. apply ascii_digit_range in H. unfold isspace_char, in_range.
  repeat match goal with
         | |- context [?a <=? ?b] => destruct (Z.leb_spec a b); try lia
         | |- context [?a =? ?b] => destruct (Z.eqb_spec a b); try lia
         end.
Qed.

Lemma int_of_digits (c : Z) (s : str) :
  is_ascii_digit c = true -> int_of (c :: s) = digits_value 0 (c :: s).
Proof. intros H. unfold int_of. cbn [lstrip]. now rewrite (isspace_digit c H). Qed.

Lemma digits_value_2 a b :
  is_ascii_digit a = true -> is_ascii_digit b = true ->
  digits_value 0 [a; b] = Some (10 * digit_of a + digit_of b).
Proof.
  intros Ha Hb. cbn [digits_value].
  rewrite (decimal_value_digit a Ha), (decimal_value_digit b Hb). f_equal; lia.
Qed.

Lemma digits_value_4 a b c d :
  is_ascii_digit a = true -> is_ascii_digit b = true ->
  is_ascii_digit c = true -> is_ascii_digit d = true ->
  digits_value 0 [a; b; c; d]
  = Some (1000 * digit_of a + 100 * digit_of b + 10 * digit_of c + digit_of d).
Proof.
  intros Ha Hb Hc Hd. cbn [digits_value].
  rewrite (decimal_value_digit a Ha), (decimal_value_digit b Hb),
    (decimal_value_digit c Hc), (decimal_value_digit d Hd).
  f_equal; lia.
Qed.

Lemma lang_re_d_two_digits a b :
  is_ascii_digit a = true -> is_ascii_digit b = true ->
  1 <= 10 * digit_of a + digit_of b <= 31 ->
  lang re_d [a; b].
Proof.
  intros Ha Hb Hv. pose proof (isdecimal_digit b Hb) as Hdec.
  apply ascii_digit_range in Ha, Hb. unfold digit_of in Hv.
  unfold re_d. cbn [lang]. norm_ch.
  assert (Hc : a = 48 \/ (49 <= a <= 50) \/ a = 51) by lia.
  destruct Hc as [->|[Hc| ->]].
  - right. right. left. exists [48], [b]. repeat split.
    exists b. split; [reflexivity|]. apply in_range_iff. lia.
  - right. left. exists [a], [b]. repeat split; [|eauto].
    exists a. split; [reflexivity|]. apply in_range_iff. lia.
  - left. exists [51], [b]. repeat split.
    exists b. split; [reflexivity|]. apply in_range_iff. lia.
Qed.

Lemma lang_re_m_two_digits a b :
  is_ascii_digit a = true -> is_ascii_digit b = true ->
  1 <= 10 * digit_of a + digit_of b <= 12 ->
  lang re_m [a; b].
Proof.
  intros Ha Hb Hv. apply ascii_digit_range in Ha, Hb. unfold digit_of in Hv.
  unfold re_m. cbn [lang]. norm_ch.
  assert (Hc : a = 48 \/ a = 49) by lia.
  destruct Hc as [->| ->].
  - right. left. exists [48], [b]. repeat split.
    exists b. split; [reflexivity|]. apply in_range_iff. lia.
  - left. exists [49], [b]. repeat split.
    exists b. split; [reflexivity|]. apply in_range_iff. lia.
Qed.

Lemma lang_re_Y_four_digits a b c d :
  is_ascii_digit a = true -> is_ascii_digit b = true ->
  is_ascii_digit c = true -> is_ascii_digit d = true ->
  lang re_Y [a; b; c; d].
Proof.
  intros Ha Hb Hc Hd. unfold re_Y. cbn [lang].
  exists [a], [b; c; d]. repeat split; [eauto using isdecimal_digit|].
  exists [b], [c; d]. repeat split; [eauto using isdecimal_digit|].
  exists [c], [d]. repeat split; eauto using isdecimal_digit.
Qed.

Lemma validate_date_iff (s : str) :
  Birthday.validate_date s = true
  <-> exists D Mo Y dv mv yv,
        s = D ++ dot :: Mo ++ dot :: Y
        /\ lang re_d D /\ lang re_m Mo /\ lang re_Y Y
        /\ int_of D = Some dv /\ int_of Mo = Some mv /\ int_of Y = Some yv
        /\ valid_date (mkdate yv mv dv) = true.
Proof.
  unfold Birthday.validate_date, strptime. split.
  - destruct (match_dmY s) as [[[[d m] y] rest]|] eqn:Hm; [|discriminate].
    apply match_dmY_sound in Hm as (-> & Hd & Hmo & Hy).
    destruct rest; [|discriminate].
    destruct (int_of y) as [yv|] eqn:Hyv; [|discriminate].
    destruct (int_of m) as [mv|] eqn:Hmv; [|discriminate].
    destruct (int_of d) as [dv|] eqn:Hdv; [|discriminate].
    destruct (date_new yv mv dv) as [x|] eqn:Hnew; [|discriminate].
    apply date_new_Return in Hnew as [-> Hv]. intros _.
    exists d, m, y, dv, mv, yv. rewrite app_nil_r. repeat split; assumption.
  - intros (D & Mo & Y & dv & mv & yv & -> & Hd & Hm & Hy & Hdv & Hmv & Hyv & Hv).
    rewrite <- (app_nil_r Y).
    rewrite (match_dmY_complete D Mo Y [] Hd Hm Hy), Hdv, Hmv, Hyv.
    now rewrite (date_new_valid _ _ _ Hv).
Qed.

Lemma birthday_init_iff (s : str) :
  Birthday.init s = Return (mkField s) <-> Birthday.validate_date s = true.
Proof.
  unfold Birthday.init. destruct (Birthday.validate_date s); cbn [negb]; split;
    congruence.
Qed.

Lemma is_DD_MM_YYYY_accepted (s : str) :
  is_DD_MM_YYYY s = true -> Birthday.validate_date s = true.
Proof.
  unfold is_DD_MM_YYYY.
  destruct s as [|d1 [|d2 [|p1 [|m1 [|m2 [|p2 [|y1 [|y2 [|y3 [|y4 [|]]]]]]]]]]];
    try discriminate.
  cbn [forallb]. rewrite !andb_true_iff, !Z.eqb_eq.
  intros [[[(Hd1 & Hd2 & Hm1 & Hm2 & Hy1 & Hy2 & Hy3 & Hy4 & _) ->] ->] Hv].
  pose proof (valid_date_fields _ Hv) as (Hy & Hm & Hd).
  cbn [year month day] in Hy, Hm, Hd.
  match type of Hd with
  | _ <= _ <= days_in_month ?y ?m =>
      pose proof (days_in_month_bounds y m Hm) as Hdim
  end.
  apply validate_date_iff.
  exists [d1; d2], [m1; m2], [y1; y2; y3; y4].
  eexists _, _, _. split; [reflexivity|].
  split; [apply lang_re_d_two_digits; auto; lia|].
  split; [apply lang_re_m_two_digits; auto|].
  split; [apply lang_re_Y_four_digits; auto|].
  rewrite !int_of_digits by assumption.
  rewrite !digits_value_2, digits_value_4 by assumption.
  repeat split. exact Hv.
Qed.

(** C5 (as the spec has it) fails: a day and a month of one digit make a
    birthday, although the text is not in the format DD.MM.YYYY. *)
Lemma birthday_accepts_one_digit_day_and_month :
  Birthday.init (lit "1.1.2020") = Return (mkField (lit "1.1.2020"))
  /\ is_DD_MM_YYYY (lit "1.1.2020") = false.
Proof. split; vm_compute; reflexivity. Qed.

(** C5 (as the code has it).  Constructing a birthday succeeds exactly on
    the strings [strptime] parses with the format [%d.%m.%Y]: a day, a dot,
    a month, a dot and a year, where the day is written [3[0-1]],
    [[1-2]\d], [0[1-9]], [[1-9]] or a space and [[1-9]], the month
    [1[0-2]], [0[1-9]] or [[1-9]], the year with four decimal digits, and
    the three numbers are a date of the calendar (years 1 to 9999).  Every
    real date written DD.MM.YYYY is accepted, every failure is a
    [ValueError], and [31.02.2020], [2020.01.01] and [1-1-2020] are
    rejected. *)
Theorem birthday_init_iff_strptime (s : str) :
  (Birthday.init s = Return (mkField s)
   <-> exists D Mo Y dv mv yv,
         s = D ++ dot :: Mo ++ dot :: Y
         /\ lang re_d D /\ lang re_m Mo /\ lang re_Y Y
         /\ int_of D = Some dv /\ int_of Mo = Some mv /\ int_of Y = Some yv
         /\ valid_date (mkdate yv mv dv) = true)
  /\ (Birthday.init s = Return (mkField s)
      \/ Birthday.init s = Raise (ValueError (lit "Invalid date format. Use DD.MM.YYYY")))
  /\ (is_DD_MM_YYYY s = true -> Birthday.init s = Return (mkField s))
  /\ Birthday.init (lit "31.02.2020")
     = Raise (ValueError (lit "Invalid date format. Use DD.MM.YYYY"))
  /\ Birthday.init (lit "2020.01.01")
     = Raise (ValueError (lit "Invalid date format. Use DD.MM.YYYY"))
  /\ Birthday.init (lit "1-1-2020")
     = Raise (ValueError (lit "Invalid date format. Use DD.MM.YYYY")).
Proof.
  split; [|split; [|split; [|repeat split]]].
  - rewrite birthday_init_iff. apply validate_date_iff.
  - unfold Birthday.init. destruct (Birthday.validate_date s); cbn [negb]; auto.
  - intros H. apply birthday_init_iff. now apply is_DD_MM_YYYY_accepted.
Qed.

(** * Further properties of the program *)

(** ** The dictionary of the address book *)

Lemma find_None_not_In key data :
  AddressBook.find key data = None -> ~ In key (AddressBook.keys data).
Proof.
  induction data as [|[k r] data IH]; simpl; [tauto|].
  destruct (str_eqb k key) eqn:E; [discriminate|].
  apply str_eqb_neq in E. intros H [Hk|Hin]; [congruence|now apply IH].
Qed.

Lemma not_In_find_None key data :
  ~ In key (AddressBook.keys data) -> AddressBook.find key data = None.
Proof.
  intros H. destruct (AddressBook.find key data) as [r|] eqn:E; [|reflexivity].
  exfalso. apply H. now apply (find_In_keys key r).
Qed.

Lemma find_Some_In key r data :
  AddressBook.find key data = Some r -> In (key, r) data.
Proof.
  induction data as [|[k r'] data IH]; simpl; [discriminate|].
  destruct (str_eqb k key) eqn:E; [|auto].
  apply str_eqb_eq in E. intros [= ->]. left. congruence.
Qed.

Lemma Forall_setitem (P : str * Record.t -> Prop) key r data :
  Forall P data -> P (key, r) -> Forall P (AddressBook.setitem key r data).
Proof.
  intros Hall Hr. induction Hall as [|[k r'] data Hk Hall IH]; simpl.
  - now constructor.
  - destruct (str_eqb k key) eqn:E.
    + apply str_eqb_eq in E; subst k. now constructor.
    + now constructor.
Qed.

Lemma keys_setitem_absent key r data :
  AddressBook.find key data = None ->
  AddressBook.keys (AddressBook.setitem key r data) = AddressBook.keys data ++ [key].
Proof.
  intros H. rewrite (setitem_absent _ _ _ H). unfold AddressBook.keys.
  now rewrite map_app.
Qed.

Lemma NoDup_setitem key r data :
  NoDup (AddressBook.keys data) ->
  NoDup (AddressBook.keys (AddressBook.setitem key r data)).
Proof.
  intros Hnd. destruct (AddressBook.find key data) as [r0|] eqn:E.
  - now rewrite (keys_setitem_present key r r0 data E).
  - rewrite (keys_setitem_absent key r data E).
    apply NoDup_app; [assumption|repeat constructor; simpl; tauto|].
    intros k Hk [<-|[]]. now apply (find_None_not_In key data).
Qed.

(** X1.  [add_record] and [find] (insert and look up): the record stored last
    under a name is the one found, the other names find what they found
    before, a name that is already a key keeps its place among the keys and
    a new name becomes the last key; keys stay distinct. *)
Theorem add_record_find (r : Record.t) (data : AddressBook.t) :
  AddressBook.find (value (Record.name r)) (AddressBook.add_record r data) = Some r
  /\ (forall k, k <> value (Record.name r) ->
        AddressBook.find k (AddressBook.add_record r data) = AddressBook.find k data)
  /\ AddressBook.keys (AddressBook.add_record r data)
     = (if in_dec (list_eq_dec Z.eq_dec) (value (Record.name r)) (AddressBook.keys data)
        then AddressBook.keys data
        else AddressBook.keys data ++ [value (Record.name r)])
  /\ (NoDup (AddressBook.keys data) ->
      NoDup (AddressBook.keys (AddressBook.add_record r data))).
Proof.
  unfold AddressBook.add_record. split; [|split; [|split]].
  - apply find_setitem_same.
  - intros k Hk. now apply find_setitem_other.
  - destruct (in_dec _ _ _) as [Hin|Hnin].
    + destruct (AddressBook.find (value (Record.name r)) data) as [r0|] eqn:E.
      * now apply (keys_setitem_present _ r r0).
      * exfalso. now apply (find_None_not_In _ _ E).
    + apply keys_setitem_absent. now apply not_In_find_None.
  - apply NoDup_setitem.
Qed.

(** ** What the mutating commands do *)

Lemma change_phone_existing (w : World) (name p : str) (r : Record.t) :
  AddressBook.find name (book w) = Some r ->
  Phone.validate p = true ->
  ChangePhone.body [name; p] w
  = let b := AddressBook.setitem name
               (Record.mk (Record.name r) (Some (mkField p)) (Record.birthday r))
               (book w) in
    (Return (lit "Phone number updated."), mkWorld b (Some b)).
Proof.
  intros Hfind Hv. unfold_cmd. rewrite Hfind, Hv. cbn [negb].
  cbn [bind ret M_monad outcome_monad book pkl]. rewrite Hfind.
  unfold Record.edit_phone. now rewrite (phone_init_valid _ Hv).
Qed.

Lemma add_birthday_existing (w : World) (name bd : str) (r : Record.t) :
  AddressBook.find name (book w) = Some r ->
  AddBirthday.body [name; bd] w
  = match Birthday.init bd with
    | Return f =>
        let b := AddressBook.setitem name
                   (Record.mk (Record.name r) (Record.phone r) (Some f)) (book w) in
        (Return (lit "Birthday added."), mkWorld b (Some b))
    | Raise e => (Raise e, w)
    end.
Proof.
  intros Hfind. unfold_cmd. rewrite Hfind.
  cbn [bind ret M_monad outcome_monad book pkl]. rewrite Hfind.
  unfold Record.add_birthday. now destruct (Birthday.init bd).
Qed.

Lemma add_contact_no_phone (w : World) (name : str) (rest : list str) :
  AddContact.body (name :: [] :: rest) w
  = match AddressBook.find name (book w) with
    | Some _ => (Return (lit "Contact updated."), mkWorld (book w) (Some (book w)))
    | None =>
        let b := AddressBook.setitem name (Record.mk (mkField name) None None) (book w) in
        (Return (lit "Contact added."), mkWorld b (Some b))
    end.
Proof.
  unfold_cmd. destruct (AddressBook.find name (book w)); reflexivity.
Qed.

Lemma birthday_init_Return bd f :
  Birthday.init bd = Return f -> f = mkField bd /\ Birthday.validate_date bd = true.
Proof.
  unfold Birthday.init. destruct (Birthday.validate_date bd); cbn [negb];
    [intros [= <-]; auto|discriminate].
Qed.

Lemma wf_book_record key r data :
  wf_book data -> AddressBook.find key data = Some r -> wf_record key r = true.
Proof.
  intros [_ Hall] Hfind. apply find_Some_In in Hfind.
  rewrite Forall_forall in Hall. apply (Hall (key, r) Hfind).
Qed.

Lemma wf_record_parts key r :
  wf_record key r = true
  <-> value (Record.name r) = key
      /\ (forall p, Record.phone r = Some p -> Phone.validate (value p) = true)
      /\ (forall b, Record.birthday r = Some b -> Birthday.validate_date (value b) = true).
Proof.
  unfold wf_record. rewrite !andb_true_iff, str_eqb_eq. split.
  - intros [[Hn Hp] Hb]. split; [assumption|split].
    + intros p Hp'. now rewrite Hp' in Hp.
    + intros b Hb'. now rewrite Hb' in Hb.
  - intros (Hn & Hp & Hb). split; [split; [assumption|]|].
    + destruct (Record.phone r); auto.
    + destruct (Record.birthday r); auto.
Qed.

(** The book after a command is the book before, or the book before with
    one slot set to a record that is well formed. *)
Lemma body_book_cases today c args w :
  wf_book (book w) ->
  book (snd (body today c args w)) = book w
  \/ exists key r,
       book (snd (body today c args w)) = AddressBook.setitem key r (book w)
       /\ wf_record key r = true.
Proof.
  intros Hwf.
  destruct c; try (left; rewrite query_body_state; reflexivity); cbn [body].
  - destruct args as [|name [|p rest]]; [left; reflexivity..|].
    destruct p as [|ch p].
    { rewrite add_contact_no_phone.
      destruct (AddressBook.find name (book w)); [left; reflexivity|].
      right. exists name, (Record.mk (mkField name) None None). split; [reflexivity|].
      unfold wf_record. cbn. now rewrite str_eqb_refl. }
    destruct (AddressBook.find name (book w)) as [r|] eqn:Hfind.
    + destruct (Phone.validate (ch :: p)) eqn:Hv.
      * rewrite (add_contact_existing w name _ rest r Hfind Hv). right.
        eexists _, _. split; [reflexivity|].
        apply (wf_book_record _ _ _ Hwf) in Hfind.
        apply wf_record_parts in Hfind as (Hn & _ & Hb).
        apply wf_record_parts. cbn. split; [assumption|split]; [|assumption].
        now intros ? [= <-].
      * left. revert Hv. unfold_cmd. rewrite Hfind.
        cbn [bind ret M_monad outcome_monad book pkl]. rewrite Hfind.
        unfold Record.add_phone. intros Hv. now rewrite (phone_init_invalid _ Hv).
    + rewrite (add_contact_new w name (ch :: p) rest Hfind ltac:(discriminate)).
      rewrite <- (setitem_absent name _ (book w) Hfind). right.
      destruct (Phone.validate (ch :: p)) eqn:Hv.
      * rewrite (phone_init_valid _ Hv). cbn [snd book].
        rewrite <- (setitem_absent name _ (book w) Hfind).
        eexists _, _. split; [reflexivity|].
        apply wf_record_parts. cbn. split; [reflexivity|split]; [|discriminate].
        now intros ? [= <-].
      * rewrite (phone_init_invalid _ Hv). cbn [snd book].
        eexists _, _. split; [reflexivity|].
        unfold wf_record. cbn. now rewrite str_eqb_refl.
  - destruct args as [|name [|p [|x rest]]]; try (left; reflexivity).
    destruct (AddressBook.find name (book w)) as [r|] eqn:Hfind;
      [|left; unfold_cmd; now rewrite Hfind].
    destruct (Phone.validate p) eqn:Hv;
      [|left; unfold_cmd; now rewrite Hfind, Hv].
    rewrite (change_phone_existing w name p r Hfind Hv). right.
    eexists _, _. split; [reflexivity|].
    apply (wf_book_record _ _ _ Hwf) in Hfind.
    apply wf_record_parts in Hfind as (Hn & _ & Hb).
    apply wf_record_parts. cbn. split; [assumption|split]; [|assumption].
    now intros ? [= <-].
  - destruct args as [|name [|bd [|x rest]]]; try (left; reflexivity).
    destruct (AddressBook.find name (book w)) as [r|] eqn:Hfind;
      [|left; unfold_cmd; now rewrite Hfind].
    rewrite (add_birthday_existing w name bd r Hfind).
    destruct (Birthday.init bd) as [f|e] eqn:Hb; [|left; reflexivity].
    apply birthday_init_Return in Hb as [-> Hb]. right.
    eexists _, _. split; [reflexivity|].
    apply (wf_book_record _ _ _ Hwf) in Hfind.
    apply wf_record_parts in Hfind as (Hn & Hp & _).
    apply wf_record_parts. cbn. split; [assumption|split]; [assumption|].
    now intros ? [= <-].
Qed.

(** X2.  Every command keeps the address book well formed: the keys stay
    distinct, every record stays under its own name, and every phone and
    birthday that is set passed its validation. *)
Theorem execute_preserves_wf_book
    (today : date) (c : command) (args : list str) (w : World) :
  wf_book (book w) -> wf_book (book (snd (execute today c args w))).
Proof.
  intros Hwf. rewrite execute_body, input_error_state.
  destruct (body_book_cases today c args w Hwf) as [->|(key & r & -> & Hr)];
    [assumption|].
  destruct Hwf as [Hnd Hall]. split.
  - now apply NoDup_setitem.
  - now apply Forall_setitem.
Qed.

Lemma wf_book_alice : wf_book (book alice_with_birthday).
Proof.
  split.
  - repeat constructor. simpl. tauto.
  - repeat constructor.
Qed.

Lemma execute_preserves_wf_book_witness :
  wf_book (book (snd (execute (mkdate 2024 6 10) add [lit "Bob"; lit "123"]
                        alice_with_birthday))).
Proof.
  apply (execute_preserves_wf_book (mkdate 2024 6 10) add [lit "Bob"; lit "123"]
           alice_with_birthday).
  exact wf_book_alice.
Defined.

Lemma add_contact_existing_invalid (w : World) (name p : str) (rest : list str) (r : Record.t) :
  AddressBook.find name (book w) = Some r ->
  p <> [] ->
  Phone.validate p = false ->
  AddContact.body (name :: p :: rest) w
  = (Raise (ValueError (lit "Phone number must be 10 digits.")), w).
Proof.
  intros Hfind Hp Hv. unfold_cmd. rewrite Hfind.
  cbn [bind ret M_monad outcome_monad book pkl].
  destruct p as [|ch p]; [congruence|]. rewrite Hfind.
  unfold Record.add_phone. now rewrite (phone_init_invalid _ Hv).
Qed.

Lemma change_phone_spec_body (w : World) (name p : str) :
  ChangePhone.body [name; p] w
  = match AddressBook.find name (book w) with
    | None => (Raise KeyError, w)
    | Some r =>
        if Phone.validate p then
          let b := AddressBook.setitem name
                     (Record.mk (Record.name r) (Some (mkField p)) (Record.birthday r))
                     (book w) in
          (Return (lit "Phone number updated."), mkWorld b (Some b))
        else (Raise (ValueError (lit "Phone number must be 10 digits.")), w)
    end.
Proof.
  destruct (AddressBook.find name (book w)) as [r|] eqn:Hfind.
  - destruct (Phone.validate p) eqn:Hv.
    + now apply change_phone_existing.
    + unfold_cmd. now rewrite Hfind, Hv.
  - unfold_cmd. now rewrite Hfind.
Qed.

(** X3.  Change Phone, command by command line.  Without arguments or with
    one it reports which one is missing; with more than two it reports the
    failed unpacking, whatever the arguments are (Add Contact ignores
    further arguments); with two it reports a missing contact before it
    looks at the phone, then an invalid phone, and otherwise sets the phone
    and saves.  Every report leaves the book and the file as they were. *)
Theorem change_phone_spec (today : date) (w : World) :
  execute today change [] w
  = (Return (lit "You did not enter the subscriber's name!"), w)
  /\ (forall name,
        execute today change [name] w
        = (Return (lit "You did not enter a new phone number!"), w))
  /\ (forall name p x rest,
        execute today change (name :: p :: x :: rest) w
        = (Return (lit "too many values to unpack (expected 2)"), w))
  /\ (forall name p,
        execute today change [name; p] w
        = match AddressBook.find name (book w) with
          | None => (Return (lit "Contact is not found!"), w)
          | Some r =>
              if Phone.validate p then
                let b := AddressBook.setitem name
                           (Record.mk (Record.name r) (Some (mkField p))
                              (Record.birthday r))
                           (book w) in
                (Return (lit "Phone number updated."), mkWorld b (Some b))
              else (Return (lit "Phone number must be 10 digits."), w)
          end).
Proof.
  split; [reflexivity|split; [reflexivity|split; [reflexivity|]]].
  intros name p. cbn [execute]. unfold ChangePhone.execute, input_error.
  rewrite change_phone_spec_body.
  destruct (AddressBook.find name (book w)); [|reflexivity].
  now destruct (Phone.validate p).
Qed.

(** X4.  Change Phone on a contact of the book, with a valid phone,
    replaces the phone only: the record keeps its name and its birthday,
    the book keeps its keys in their order, every other contact is as
    before, and the file holds the new book. *)
Theorem change_phone_updates
    (today : date) (w : World) (N p : str) (r : Record.t) :
  AddressBook.find N (book w) = Some r ->
  Phone.validate p = true ->
  let w' := snd (execute today change [N; p] w) in
  fst (execute today change [N; p] w) = Return (lit "Phone number updated.")
  /\ AddressBook.find N (book w')
     = Some (Record.mk (Record.name r) (Some (mkField p)) (Record.birthday r))
  /\ AddressBook.keys (book w') = AddressBook.keys (book w)
  /\ (forall k, k <> N -> AddressBook.find k (book w') = AddressBook.find k (book w))
  /\ pkl w' = Some (book w').
Proof.
  intros Hfind Hv w'. subst w'. cbn [execute].
  unfold ChangePhone.execute, input_error.
  rewrite change_phone_spec_body, Hfind, Hv. cbn [fst snd book pkl].
  split; [reflexivity|split; [apply find_setitem_same|split; [|split]]].
  - now apply (keys_setitem_present N _ r).
  - intros k Hk. now apply find_setitem_other.
  - reflexivity.
Qed.

Lemma change_phone_updates_witness :
  let w' := snd (execute (mkdate 2024 6 10) change [lit "Alice"; lit "9876543210"]
                   alice_with_birthday) in
  fst (execute (mkdate 2024 6 10) change [lit "Alice"; lit "9876543210"]
         alice_with_birthday)
  = Return (lit "Phone number updated.")
  /\ AddressBook.find (lit "Alice") (book w')
     = Some (Record.mk (mkField (lit "Alice")) (Some (mkField (lit "9876543210")))
               (Some (mkField (lit "12.06.1990"))))
  /\ AddressBook.keys (book w') = AddressBook.keys (book alice_with_birthday)
  /\ (forall k, k <> lit "Alice" ->
        AddressBook.find k (book w') = AddressBook.find k (book alice_with_birthday))
  /\ pkl w' = Some (book w').
Proof.
  apply (change_phone_updates (mkdate 2024 6 10) alice_with_birthday (lit "Alice")
           (lit "9876543210")
           (Record.mk (mkField (lit "Alice")) (Some (mkField (lit "0123456789")))
              (Some (mkField (lit "12.06.1990")))));
    reflexivity.
Defined.

Lemma add_birthday_execute (w : World) (name bd : str) :
  AddBirthday.execute [name; bd] w
  = match AddressBook.find name (book w) with
    | None => (Return (lit "Contact is not found!"), w)
    | Some r =>
        if Birthday.validate_date bd then
          let b := AddressBook.setitem name
                     (Record.mk (Record.name r) (Record.phone r) (Some (mkField bd)))
                     (book w) in
          (Return (lit "Birthday added."), mkWorld b (Some b))
        else (Return (lit "Invalid date format. Use DD.MM.YYYY"), w)
    end.
Proof.
  unfold AddBirthday.execute, input_error.
  destruct (AddressBook.find name (book w)) as [r|] eqn:Hfind.
  - rewrite (add_birthday_existing w name bd r Hfind). unfold Birthday.init.
    now destruct (Birthday.validate_date bd).
  - unfold_cmd. now rewrite Hfind.
Qed.

(** X5.  Add Birthday, command by command line.  With another number of
    arguments than two it reports the failed unpacking; with two it reports
    a missing contact before it looks at the date, then an invalid date,
    and otherwise sets the birthday, keeps name and phone, and saves.
    Every report leaves the book and the file as they were. *)
Theorem add_birthday_spec (today : date) (w : World) :
  execute today add_birthday [] w
  = (Return (lit "not enough values to unpack (expected 2, got 0)"), w)
  /\ (forall name,
        execute today add_birthday [name] w
        = (Return (lit "not enough values to unpack (expected 2, got 1)"), w))
  /\ (forall name bd x rest,
        execute today add_birthday (name :: bd :: x :: rest) w
        = (Return (lit "too many values to unpack (expected 2)"), w))
  /\ (forall name bd,
        execute today add_birthday [name; bd] w
        = match AddressBook.find name (book w) with
          | None => (Return (lit "Contact is not found!"), w)
          | Some r =>
              if Birthday.validate_date bd then
                let b := AddressBook.setitem name
                           (Record.mk (Record.name r) (Record.phone r)
                              (Some (mkField bd)))
                           (book w) in
                (Return (lit "Birthday added."), mkWorld b (Some b))
              else (Return (lit "Invalid date format. Use DD.MM.YYYY"), w)
          end).
Proof.
  split; [reflexivity|split; [reflexivity|split; [reflexivity|]]].
  intros name bd. cbn [execute]. apply add_birthday_execute.
Qed.

(** X6.  A birthday that Add Birthday accepts is shown by Show Birthday
    exactly as it was entered, without reformatting, and the phone of the
    contact is as before. *)
Theorem add_birthday_then_show
    (today : date) (w : World) (N bd : str) (r : Record.t) :
  AddressBook.find N (book w) = Some r ->
  Birthday.validate_date bd = true ->
  let w1 := snd (execute today add_birthday [N; bd] w) in
  fst (execute today add_birthday [N; bd] w) = Return (lit "Birthday added.")
  /\ execute today show_birthday [N] w1 = (Return (N ++ lit ": " ++ bd), w1)
  /\ execute today phone [N] w1 = (Return (N ++ lit ": " ++ Record.phone_str r), w1).
Proof.
  intros Hfind Hv w1. subst w1. cbn [execute].
  rewrite add_birthday_execute, Hfind, Hv. cbn [fst snd].
  split; [reflexivity|].
  split; cbn [execute]; unfold_cmd; rewrite find_setitem_same; reflexivity.
Qed.

Lemma add_birthday_then_show_witness :
  let w1 := snd (execute (mkdate 2024 6 10) add_birthday [lit "Bob"; lit "1.1.2020"]
                   bob_without_phone) in
  fst (execute (mkdate 2024 6 10) add_birthday [lit "Bob"; lit "1.1.2020"]
         bob_without_phone)
  = Return (lit "Birthday added.")
  /\ execute (mkdate 2024 6 10) show_birthday [lit "Bob"] w1
     = (Return (lit "Bob" ++ lit ": " ++ lit "1.1.2020"), w1)
  /\ execute (mkdate 2024 6 10) phone [lit "Bob"] w1
     = (Return (lit "Bob" ++ lit ": "
                  ++ Record.phone_str (Record.mk (mkField (lit "Bob")) None None)), w1).
Proof.
  apply (add_birthday_then_show (mkdate 2024 6 10) bob_without_phone (lit "Bob")
           (lit "1.1.2020") (Record.mk (mkField (lit "Bob")) None None));
    reflexivity.
Defined.

(** The book after Add Contact with a valid phone. *)
Lemma add_contact_valid (w : World) (N p : str) (rest : list str) :
  Phone.validate p = true ->
  AddContact.execute (N :: p :: rest) w
  = match AddressBook.find N (book w) with
    | Some r =>
        let b := AddressBook.setitem N
                   (Record.mk (Record.name r) (Some (mkField p)) (Record.birthday r))
                   (book w) in
        (Return (lit "Contact updated."), mkWorld b (Some b))
    | None =>
        let b := AddressBook.setitem N (Record.mk (mkField N) (Some (mkField p)) None)
                   (book w) in
        (Return (lit "Contact added."), mkWorld b (Some b))
    end.
Proof.
  intros Hv. unfold AddContact.execute, input_error.
  destruct (AddressBook.find N (book w)) as [r|] eqn:Hfind.
  - now rewrite (add_contact_existing w N p rest r Hfind Hv).
  - rewrite (add_contact_new w N p rest Hfind (validate_nonempty p Hv)).
    rewrite (phone_init_valid p Hv). cbn zeta.
    now rewrite (setitem_absent N _ (book w) Hfind).
Qed.

(** X7.  After Add Contact with a valid phone, whether it added the
    contact or updated it, Get Phone on the name answers with that phone,
    and the file holds the book. *)
Theorem add_then_get_phone
    (today : date) (w : World) (N p : str) (rest rest' : list str) :
  Phone.validate p = true ->
  let w1 := snd (execute today add (N :: p :: rest) w) in
  execute today phone (N :: rest') w1 = (Return (N ++ lit ": " ++ p), w1)
  /\ pkl w1 = Some (book w1)
  /\ fst (execute today add (N :: p :: rest) w)
     = Return (match AddressBook.find N (book w) with
               | Some _ => lit "Contact updated."
               | None => lit "Contact added."
               end).
Proof.
  intros Hv w1. subst w1. cbn [execute].
  rewrite (add_contact_valid w N p rest Hv).
  destruct (AddressBook.find N (book w)) as [r|]; cbn [fst snd];
    (split; [unfold_cmd; rewrite find_setitem_same; reflexivity|split; reflexivity]).
Qed.

Lemma add_then_get_phone_witness :
  let w1 := snd (execute (mkdate 2024 6 10) add [lit "Bob"; lit "0123456789"]
                   empty_world) in
  execute (mkdate 2024 6 10) phone [lit "Bob"] w1
  = (Return (lit "Bob" ++ lit ": " ++ lit "0123456789"), w1)
  /\ pkl w1 = Some (book w1)
  /\ fst (execute (mkdate 2024 6 10) add [lit "Bob"; lit "0123456789"] empty_world)
     = Return (match AddressBook.find (lit "Bob") (book empty_world) with
               | Some _ => lit "Contact updated."
               | None => lit "Contact added."
               end).
Proof.
  apply (add_then_get_phone (mkdate 2024 6 10) empty_world (lit "Bob")
           (lit "0123456789") [] []).
  reflexivity.
Defined.

(** X8.  Add Contact twice with the same name and two valid phones: the
    second call answers [Contact updated.], the book has exactly one slot
    for the name, with the second phone, and the same keys as after the
    first call. *)
Theorem add_twice_overwrites
    (today : date) (w : World) (N p1 p2 : str) (rest1 rest2 : list str) :
  NoDup (AddressBook.keys (book w)) ->
  Phone.validate p1 = true ->
  Phone.validate p2 = true ->
  let w1 := snd (execute today add (N :: p1 :: rest1) w) in
  let w2 := snd (execute today add (N :: p2 :: rest2) w1) in
  fst (execute today add (N :: p2 :: rest2) w1) = Return (lit "Contact updated.")
  /\ slots N (book w2) = 1%nat
  /\ AddressBook.keys (book w2) = AddressBook.keys (book w1)
  /\ exists r, AddressBook.find N (book w2) = Some r
               /\ Record.phone r = Some (mkField p2)
               /\ value (Record.name r) = match AddressBook.find N (book w) with
                                          | Some r0 => value (Record.name r0)
                                          | None => N
                                          end.
Proof.
  intros Hnd Hv1 Hv2 w1 w2.
  assert (H1 : exists r1, AddressBook.find N (book w1) = Some r1
                          /\ value (Record.name r1)
                             = match AddressBook.find N (book w) with
                               | Some r0 => value (Record.name r0)
                               | None => N
                               end
                          /\ NoDup (AddressBook.keys (book w1))).
  { subst w1 w2. cbn [execute]. rewrite (add_contact_valid w N p1 rest1 Hv1).
    destruct (AddressBook.find N (book w)) as [r0|]; cbn [snd book];
      eexists; (split; [apply find_setitem_same|split; [reflexivity|]]);
      now apply NoDup_setitem. }
  destruct H1 as (r1 & Hf1 & Hn1 & Hnd1).
  subst w2. cbn [execute]. rewrite (add_contact_valid w1 N p2 rest2 Hv2), Hf1.
  cbn [fst snd book].
  assert (Hk := keys_setitem_present N
                  (Record.mk (Record.name r1) (Some (mkField p2)) (Record.birthday r1))
                  r1 (book w1) Hf1).
  split; [reflexivity|split; [|split; [exact Hk|]]].
  - rewrite (slots_keys N _ _ Hk). apply slots_NoDup; [assumption|].
    now apply (find_In_keys N r1).
  - eexists. split; [apply find_setitem_same|]. cbn. split; [reflexivity|assumption].
Qed.

Lemma add_twice_overwrites_witness :
  let w1 := snd (execute (mkdate 2024 6 10) add [lit "Bob"; lit "0123456789"]
                   empty_world) in
  let w2 := snd (execute (mkdate 2024 6 10) add [lit "Bob"; lit "9876543210"] w1) in
  fst (execute (mkdate 2024 6 10) add [lit "Bob"; lit "9876543210"] w1)
  = Return (lit "Contact updated.")
  /\ slots (lit "Bob") (book w2) = 1%nat
  /\ AddressBook.keys (book w2) = AddressBook.keys (book w1)
  /\ exists r, AddressBook.find (lit "Bob") (book w2) = Some r
               /\ Record.phone r = Some (mkField (lit "9876543210"))
               /\ value (Record.name r)
                  = match AddressBook.find (lit "Bob") (book empty_world) with
                    | Some r0 => value (Record.name r0)
                    | None => lit "Bob"
                    end.
Proof.
  apply (add_twice_overwrites (mkdate 2024 6 10) empty_world (lit "Bob")
           (lit "0123456789") (lit "9876543210") [] []);
    [constructor|reflexivity|reflexivity].
Defined.

(** What a command does to the file: a query leaves it alone, a mutating
    command that returns has written the book into it, and a command that
    raises has not touched it. *)
Lemma body_file today c args w :
  match fst (body today c args w) with
  | Return _ =>
      if is_query c then snd (body today c args w) = w
      else pkl (snd (body today c args w)) = Some (book (snd (body today c args w)))
  | Raise _ => pkl (snd (body today c args w)) = pkl w
  end.
Proof.
  destruct c;
    try (cbn [is_query]; rewrite query_body_state by reflexivity;
         now destruct (fst (body today _ args w)));
    cbn [body is_query].
  - destruct args as [|name [|p rest]]; [reflexivity..|].
    destruct p as [|ch p].
    { rewrite add_contact_no_phone. now destruct (AddressBook.find name (book w)). }
    destruct (AddressBook.find name (book w)) as [r|] eqn:Hfind.
    + destruct (Phone.validate (ch :: p)) eqn:Hv.
      * now rewrite (add_contact_existing w name _ rest r Hfind Hv).
      * now rewrite (add_contact_existing_invalid w name (ch :: p) rest r Hfind
                       ltac:(discriminate) Hv).
    + rewrite (add_contact_new w name (ch :: p) rest Hfind ltac:(discriminate)).
      now destruct (Phone.init (ch :: p)).
  - destruct args as [|name [|p [|x rest]]]; try reflexivity.
    rewrite change_phone_spec_body.
    destruct (AddressBook.find name (book w)); [|reflexivity].
    now destruct (Phone.validate p).
  - destruct args as [|name [|bd [|x rest]]]; try reflexivity.
    destruct (AddressBook.find name (book w)) as [r|] eqn:Hfind.
    + rewrite (add_birthday_existing w name bd r Hfind).
      now destruct (Birthday.init bd).
    + unfold_cmd. now rewrite Hfind.
Qed.

(** X9.  The file follows the book.  When the file holds the book before a
    command, it holds the book after it, with one exception: Add Contact
    on a name without a record and with a phone that fails validation
    leaves the new record in the book and not in the file. *)
Theorem commands_keep_file_in_sync
    (today : date) (c : command) (args : list str) (w : World) :
  in_sync w ->
  in_sync (snd (execute today c args w))
  \/ (c = add
      /\ exists name p rest,
           args = name :: p :: rest
           /\ AddressBook.find name (book w) = None
           /\ Phone.validate p = false
           /\ book (snd (execute today c args w))
              = book w ++ [(name, Record.mk (mkField name) None None)]
           /\ pkl (snd (execute today c args w)) = pkl w).
Proof.
  intros Hsync. rewrite execute_body, input_error_state.
  pose proof (body_file today c args w) as Hfile.
  destruct (fst (body today c args w)) as [msg|e] eqn:Hres.
  - left. destruct (is_query c).
    + now rewrite Hfile.
    + unfold in_sync. now rewrite Hfile.
  - destruct (failure_leaves_state today c args w e Hres)
      as [->|(-> & name & p & rest & -> & Hfind)]; [now left|].
    right. split; [reflexivity|]. exists name, p, rest.
    cbn [body] in *.
    destruct p as [|ch p].
    { rewrite add_contact_no_phone, Hfind in Hres. discriminate. }
    rewrite (add_contact_new w name (ch :: p) rest Hfind ltac:(discriminate)) in *.
    destruct (Phone.init (ch :: p)) as [ph|e'] eqn:Hp; [discriminate|].
    cbn [snd book pkl]. repeat split; try assumption.
    unfold Phone.init in Hp. now destruct (Phone.validate (ch :: p)).
Qed.

Lemma commands_keep_file_in_sync_witness :
  in_sync (snd (execute (mkdate 2024 6 10) add [lit "Bob"; lit "0123456789"] empty_world))
  \/ (add = add
      /\ exists name p rest,
           [lit "Bob"; lit "0123456789"] = name :: p :: rest
           /\ AddressBook.find name (book empty_world) = None
           /\ Phone.validate p = false
           /\ book (snd (execute (mkdate 2024 6 10) add [lit "Bob"; lit "0123456789"]
                           empty_world))
              = book empty_world ++ [(name, Record.mk (mkField name) None None)]
           /\ pkl (snd (execute (mkdate 2024 6 10) add [lit "Bob"; lit "0123456789"]
                          empty_world))
              = pkl empty_world).
Proof.
  apply (commands_keep_file_in_sync (mkdate 2024 6 10) add
           [lit "Bob"; lit "0123456789"] empty_world).
  reflexivity.
Defined.

(** ** Splitting the line *)

Lemma is_token_iff (t : str) :
  is_token t = true <-> t <> [] /\ forallb nonspace t = true.
Proof.
  unfold is_token. destruct t as [|c t]; [split; [discriminate|tauto]|].
  split; [intros H; split; [discriminate|exact H]|tauto].
Qed.

Lemma forallb_nonspace_snoc tok c :
  forallb nonspace tok = true -> isspace_char c = false ->
  forallb nonspace (tok ++ [c]) = true.
Proof.
  intros Ht Hc. rewrite forallb_app, Ht. cbn. unfold nonspace. now rewrite Hc.
Qed.

Lemma split_from_tokens (s : str) : forall tok,
  forallb nonspace tok = true ->
  Forall (fun t => is_token t = true) (split_from tok s).
Proof.
  induction s as [|c s IH]; intros tok Ht; cbn [split_from].
  - destruct tok as [|x tok]; constructor; [exact Ht|constructor].
  - destruct (isspace_char c) eqn:Hc.
    + destruct tok as [|x tok]; [now apply IH|].
      constructor; [exact Ht|now apply IH].
    + apply IH. now apply forallb_nonspace_snoc.
Qed.

Lemma split_from_concat (s : str) : forall tok,
  List.concat (split_from tok s) = tok ++ filter nonspace s.
Proof.
  induction s as [|c s IH]; intros tok; cbn [split_from filter].
  - destruct tok; cbn; now rewrite ?app_nil_r.
  - unfold nonspace at 1. destruct (isspace_char c) eqn:Hc; cbn [negb].
    + destruct tok as [|x tok]; [apply IH|].
      cbn [List.concat]. now rewrite IH.
    + rewrite IH, <- app_assoc. reflexivity.
Qed.

Lemma split_from_nil_iff (s : str) : forall tok,
  split_from tok s = [] <-> tok = [] /\ forallb isspace_char s = true.
Proof.
  induction s as [|c s IH]; intros tok; cbn [split_from forallb].
  - destruct tok; split; try tauto; try discriminate. intros [H _]. discriminate.
  - destruct (isspace_char c) eqn:Hc; cbn [andb].
    + destruct tok as [|x tok].
      * rewrite IH. tauto.
      * split; [discriminate|intros [H _]; discriminate].
    + rewrite IH. split; [intros [H _]; now destruct tok|intros [_ H]; discriminate].
Qed.

(** [split]: every token is non-empty and free of white space, the
    tokens are the characters of the line that are not white space, in
    their order, and there is no token exactly when the line is empty or
    all white space. *)
Lemma split_spec (s : str) :
  Forall (fun t => is_token t = true) (split s)
  /\ List.concat (split s) = filter nonspace s
  /\ (split s = [] <-> forallb isspace_char s = true).
Proof.
  unfold split. split; [|split].
  - now apply split_from_tokens.
  - apply split_from_concat.
  - rewrite split_from_nil_iff. tauto.
Qed.

Lemma split_from_app (t : str) : forall tok rest,
  forallb nonspace t = true ->
  split_from tok (t ++ rest) = split_from (tok ++ t) rest.
Proof.
  induction t as [|c t IH]; intros tok rest Ht; cbn [app split_from].
  - now rewrite app_nil_r.
  - cbn [forallb] in Ht. apply andb_true_iff in Ht as [Hc Ht].
    unfold nonspace in Hc. apply negb_true_iff in Hc. rewrite Hc.
    rewrite (IH _ _ Ht), <- app_assoc. reflexivity.
Qed.

Lemma isspace_space : isspace_char (ch " ") = true.
Proof. reflexivity. Qed.

(** Joining tokens with single spaces and splitting the line gives the
    tokens back. *)
Lemma split_join (toks : list str) :
  Forall (fun t => is_token t = true) toks ->
  split (join (lit " ") toks) = toks.
Proof.
  unfold split. induction 1 as [|t toks Ht Hall IH]; [reflexivity|].
  apply is_token_iff in Ht as [Hne Hns].
  destruct toks as [|t' toks].
  - cbn [join].
    replace (split_from [] t) with (split_from [] (t ++ []))
      by now rewrite app_nil_r.
    rewrite (split_from_app t [] [] Hns). cbn [app split_from].
    destruct t; [congruence|reflexivity].
  - change (join (lit " ") (t :: t' :: toks))
      with (t ++ ch " " :: join (lit " ") (t' :: toks)).
    rewrite (split_from_app t [] _ Hns). cbn [app split_from].
    rewrite isspace_space. destruct t as [|c t]; [congruence|].
    now rewrite IH.
Qed.

Lemma lstrip_token (t : str) : is_token t = true -> lstrip t = t.
Proof.
  destruct t as [|c t]; [discriminate|]. cbn [is_token forallb lstrip].
  intros H. apply andb_true_iff in H as [Hc _]. apply negb_true_iff in Hc.
  now rewrite Hc.
Qed.

Lemma is_token_rev (t : str) : is_token t = true -> is_token (rev t) = true.
Proof.
  rewrite !is_token_iff. intros [Hne Hns]. split.
  - intros H. apply Hne. now rewrite <- (rev_involutive t), H.
  - rewrite forallb_forall in *. intros c Hc. apply Hns. now apply in_rev.
Qed.

Lemma strip_token (t : str) : is_token t = true -> strip t = t.
Proof.
  intros Ht. unfold strip, rstrip. rewrite (lstrip_token t Ht).
  rewrite (lstrip_token _ (is_token_rev t Ht)). apply rev_involutive.
Qed.

(** ** The keys of the book *)

Lemma body_keys today c args w :
  AddressBook.keys (book (snd (body today c args w))) = AddressBook.keys (book w)
  \/ exists name rest,
       args = name :: rest
       /\ AddressBook.keys (book (snd (body today c args w)))
          = AddressBook.keys (book w) ++ [name].
Proof.
  destruct c; try (left; rewrite query_body_state; reflexivity); cbn [body].
  - destruct args as [|name [|p rest]]; [left; reflexivity..|].
    destruct (AddressBook.find name (book w)) as [r|] eqn:Hfind.
    + left. destruct p as [|ch p].
      { now rewrite add_contact_no_phone, Hfind. }
      destruct (Phone.validate (ch :: p)) eqn:Hv.
      * rewrite (add_contact_existing w name _ rest r Hfind Hv). cbn [snd book].
        now apply (keys_setitem_present name _ r).
      * now rewrite (add_contact_existing_invalid w name (ch :: p) rest r Hfind
                       ltac:(discriminate) Hv).
    + right. exists name, (p :: rest). split; [reflexivity|].
      destruct p as [|ch p].
      { rewrite add_contact_no_phone, Hfind. cbn [snd book].
        now apply keys_setitem_absent. }
      rewrite (add_contact_new w name (ch :: p) rest Hfind ltac:(discriminate)).
      unfold AddressBook.keys.
      destruct (Phone.init (ch :: p)); cbn [snd book]; now rewrite map_app.
  - left. destruct args as [|name [|p [|x rest]]]; try reflexivity.
    rewrite change_phone_spec_body.
    destruct (AddressBook.find name (book w)) as [r|] eqn:Hfind; [|reflexivity].
    destruct (Phone.validate p); [|reflexivity]. cbn [snd book].
    now apply (keys_setitem_present name _ r).
  - left. destruct args as [|name [|bd [|x rest]]]; try reflexivity.
    destruct (AddressBook.find name (book w)) as [r|] eqn:Hfind.
    + rewrite (add_birthday_existing w name bd r Hfind).
      destruct (Birthday.init bd); [|reflexivity]. cbn [snd book].
      now apply (keys_setitem_present name _ r).
    + unfold_cmd. now rewrite Hfind.
Qed.

(** X10.  No command removes or renames a contact: after a command the
    keys of the book are the keys before, in their order, or the keys
    before followed by the first argument. *)
Theorem execute_keys (today : date) (c : command) (args : list str) (w : World) :
  AddressBook.keys (book (snd (execute today c args w))) = AddressBook.keys (book w)
  \/ exists name rest,
       args = name :: rest
       /\ c = add
       /\ AddressBook.find name (book w) = None
       /\ AddressBook.keys (book (snd (execute today c args w)))
          = AddressBook.keys (book w) ++ [name].
Proof.
  rewrite execute_body, input_error_state.
  destruct (body_keys today c args w) as [H|(name & rest & -> & H)]; [now left|].
  destruct (AddressBook.find name (book w)) as [r|] eqn:Hfind.
  - left. destruct c; try (rewrite query_body_state; reflexivity); cbn [body] in *.
    + destruct rest as [|p rest]; [reflexivity|].
      destruct p as [|ch p].
      { now rewrite add_contact_no_phone, Hfind. }
      destruct (Phone.validate (ch :: p)) eqn:Hv.
      * rewrite (add_contact_existing w name _ rest r Hfind Hv). cbn [snd book].
        now apply (keys_setitem_present name _ r).
      * now rewrite (add_contact_existing_invalid w name (ch :: p) rest r Hfind
                       ltac:(discriminate) Hv).
    + destruct rest as [|p [|x rest]]; try reflexivity.
      rewrite change_phone_spec_body, Hfind.
      destruct (Phone.validate p); [|reflexivity]. cbn [snd book].
      now apply (keys_setitem_present name _ r).
    + destruct rest as [|bd [|x rest]]; try reflexivity.
      rewrite (add_birthday_existing w name bd r Hfind).
      destruct (Birthday.init bd); [|reflexivity]. cbn [snd book].
      now apply (keys_setitem_present name _ r).
  - destruct c; try (left; rewrite query_body_state; reflexivity); cbn [body] in *.
    + right. exists name, rest. auto.
    + left. destruct rest as [|p [|x rest]]; try reflexivity.
      now rewrite change_phone_spec_body, Hfind.
    + left. destruct rest as [|bd [|x rest]]; try reflexivity.
      unfold_cmd. now rewrite Hfind.
Qed.

(** ** The read loop *)

Section ReadLoopProperties.

Variable u : str -> str.

Lemma parse_input_cases (s : str) :
  (forallb isspace_char s = true /\ parse_input u s = Raise blank_error)
  \/ (exists tok args,
        split s = tok :: args
        /\ Forall (fun t => is_token t = true) (tok :: args)
        /\ parse_input u s = Return (lower u tok, args)).
Proof.
  unfold parse_input.
  pose proof (split_from_tokens s [] eq_refl) as Htok.
  pose proof (split_from_nil_iff s []) as Hnil.
  fold (split s) in Htok, Hnil.
  destruct (split s) as [|tok args] eqn:Hs.
  - left. split; [now apply Hnil|reflexivity].
  - right. exists tok, args. split; [reflexivity|split; [assumption|]].
    inversion Htok as [|? ? Ht _]; subst. now rewrite (strip_token tok Ht).
Qed.

(** X11.  [parse_input] on a command line written as tokens separated by
    single spaces returns the first token in lower case and the other
    tokens, unchanged, as the arguments. *)
Theorem parse_input_join (cmd : str) (args : list str) :
  Forall (fun t => is_token t = true) (cmd :: args) ->
  parse_input u (join (lit " ") (cmd :: args)) = Return (lower u cmd, args).
Proof.
  intros H. unfold parse_input. rewrite (split_join _ H).
  inversion H as [|? ? Ht _]; subst. now rewrite (strip_token cmd Ht).
Qed.

(** X12.  [parse_input] raises exactly on the lines that are empty or all
    white space; on any other line it returns, and its arguments are
    tokens: none is empty, none holds white space. *)
Theorem parse_input_blank_iff (s : str) :
  (parse_input u s = Raise blank_error <-> forallb isspace_char s = true)
  /\ (forallb isspace_char s = false ->
      exists cmd args,
        parse_input u s = Return (cmd, args)
        /\ Forall (fun t => is_token t = true) args).
Proof.
  destruct (parse_input_cases s) as [[Hb Hp]|(tok & args & Hs & Htok & Hp)].
  - split; [tauto|]. congruence.
  - assert (Hnb : forallb isspace_char s = false).
    { destruct (forallb isspace_char s) eqn:E; [|reflexivity].
      assert (Hnil : split s = []) by (apply split_from_nil_iff; auto).
      congruence. }
    split.
    + rewrite Hp, Hnb. split; discriminate.
    + intros _. exists (lower u tok), args. split; [assumption|].
      now inversion Htok.
Qed.

(** X13.  The two edge lines of the loop.  On an empty line the loop says
    so and goes on; on a line of white space only, [parse_input] raises
    [ValueError] outside any handler, and the program ends there, without
    a text and without saving. *)
Theorem turn_blank_line (today : date) (w : World) :
  turn u today [] w = ([lit "You have not entered anything"], Running, w)
  /\ (forall c s,
        forallb isspace_char (c :: s) = true ->
        turn u today (c :: s) w = ([], Crashed blank_error, w)).
Proof.
  split; [reflexivity|]. intros c s H. unfold turn.
  destruct (parse_input_cases (c :: s)) as [[_ ->]|(tok & args & Hs & _ & _)];
    [reflexivity|].
  assert (Hnil : split (c :: s) = []) by (apply split_from_nil_iff; auto).
  congruence.
Qed.

Lemma execute_answers today c args w :
  valid_date today = true -> year today < 9999 ->
  exists msg, fst (execute today c args w) = Return msg.
Proof.
  intros Hv Hy. destruct (add_days_week_ok today Hv Hy) as [limit Hlim].
  rewrite execute_body. apply input_error_caught.
  intros e. now apply (body_raises_caught today limit).
Qed.

Lemma execute_wf today c args w :
  wf_book (book w) -> wf_book (book (snd (execute today c args w))).
Proof.
  intros Hwf. rewrite execute_body, input_error_state.
  destruct (body_book_cases today c args w Hwf) as [->|(key & r & -> & Hr)];
    [assumption|].
  destruct Hwf as [Hnd Hall]. split; [now apply NoDup_setitem|now apply Forall_setitem].
Qed.

Lemma execute_keys_cases today c args w :
  AddressBook.keys (book (snd (execute today c args w))) = AddressBook.keys (book w)
  \/ exists name rest,
       args = name :: rest
       /\ AddressBook.keys (book (snd (execute today c args w)))
          = AddressBook.keys (book w) ++ [name].
Proof. rewrite execute_body, input_error_state. apply body_keys. Qed.

Lemma dispatch_answers today command args w :
  valid_date today = true -> year today < 9999 ->
  exists msg w',
    (dispatch today command args w = ([msg], Running, w')
     \/ dispatch today command args w = ([msg], Closed, w'))
    /\ (AddressBook.keys (book w') = AddressBook.keys (book w)
        \/ exists name rest,
             args = name :: rest
             /\ AddressBook.keys (book w') = AddressBook.keys (book w) ++ [name])
    /\ (wf_book (book w) -> wf_book (book w')).
Proof.
  intros Hv Hy. unfold dispatch.
  destruct (str_eqb command (lit "close") || str_eqb command (lit "exit")).
  { eexists _, _. split; [right; reflexivity|]. split; [left; reflexivity|auto]. }
  destruct (str_eqb command (lit "hello")).
  { eexists _, _. split; [left; reflexivity|]. split; [left; reflexivity|auto]. }
  destruct (lookup command commands) as [c|].
  - destruct (execute_answers today c args w Hv Hy) as [msg Hmsg].
    pose proof (execute_keys_cases today c args w) as Hk.
    pose proof (execute_wf today c args w) as Hwf.
    destruct (execute today c args w) as [o w']. cbn [fst snd] in *. subst o.
    exists msg, w'. split; [left; reflexivity|]. split; assumption.
  - eexists _, _. split; [left; reflexivity|]. split; [left; reflexivity|auto].
Qed.

End ReadLoopProperties.

Section Sessions.

Variable u : str -> str.

Lemma lookup_add command : lookup command commands = Some add -> command = lit "add".
Proof.
  unfold commands. cbn [lookup].
  destruct (str_eqb (lit "add") command) eqn:E;
    [intros _; symmetry; now apply str_eqb_eq|].
  repeat match goal with
         | |- context [if ?b then _ else _] => destruct b; [discriminate|]
         end.
  discriminate.
Qed.

Lemma execute_keys_add today c args w :
  AddressBook.keys (book (snd (execute today c args w))) = AddressBook.keys (book w)
  \/ (c = add
      /\ exists name rest,
           args = name :: rest
           /\ AddressBook.keys (book (snd (execute today c args w)))
              = AddressBook.keys (book w) ++ [name]).
Proof.
  destruct c;
    try (left; rewrite execute_body, input_error_state, query_body_state; reflexivity).
  - destruct (execute_keys_cases today add args w) as [H|H]; [now left|right; auto].
  - left. rewrite execute_body, input_error_state. cbn [body].
    destruct args as [|name [|p [|x rest]]]; try reflexivity.
    rewrite change_phone_spec_body.
    destruct (AddressBook.find name (book w)) as [r|] eqn:Hfind; [|reflexivity].
    destruct (Phone.validate p); [|reflexivity]. cbn [snd book].
    now apply (keys_setitem_present name _ r).
  - left. rewrite execute_body, input_error_state. cbn [body].
    destruct args as [|name [|bd [|x rest]]]; try reflexivity.
    destruct (AddressBook.find name (book w)) as [r|] eqn:Hfind.
    + rewrite (add_birthday_existing w name bd r Hfind).
      destruct (Birthday.init bd); [|reflexivity]. cbn [snd book].
      now apply (keys_setitem_present name _ r).
    + unfold_cmd. now rewrite Hfind.
Qed.

Lemma dispatch_state today command args w :
  (AddressBook.keys (book (snd (dispatch today command args w)))
   = AddressBook.keys (book w)
   \/ exists name rest,
        args = name :: rest
        /\ command = lit "add"
        /\ AddressBook.keys (book (snd (dispatch today command args w)))
           = AddressBook.keys (book w) ++ [name])
  /\ (wf_book (book w) -> wf_book (book (snd (dispatch today command args w)))).
Proof.
  unfold dispatch.
  destruct (str_eqb command (lit "close") || str_eqb command (lit "exit"));
    [split; [left; reflexivity|auto]|].
  destruct (str_eqb command (lit "hello")); [split; [left; reflexivity|auto]|].
  destruct (lookup command commands) as [c|] eqn:Hlook;
    [|split; [left; reflexivity|auto]].
  pose proof (execute_keys_add today c args w) as Hk.
  pose proof (execute_wf today c args w) as Hwf.
  assert (Hk' : AddressBook.keys (book (snd (execute today c args w)))
                = AddressBook.keys (book w)
                \/ exists name rest,
                     args = name :: rest
                     /\ command = lit "add"
                     /\ AddressBook.keys (book (snd (execute today c args w)))
                        = AddressBook.keys (book w) ++ [name]).
  { destruct Hk as [Hk|(-> & name & rest & -> & Hk)]; [now left|].
    right. exists name, rest. split; [reflexivity|].
    split; [now apply lookup_add|assumption]. }
  destruct (execute today c args w) as [[msg|e] w']; cbn [fst snd] in *; auto.
Qed.

(** The keys of the book after a turn, and its well-formedness. *)
Lemma turn_state today line w :
  (AddressBook.keys (book (snd (turn u today line w))) = AddressBook.keys (book w)
   \/ exists name cmd rest,
        is_token name = true
        /\ split line = cmd :: name :: rest
        /\ lower u cmd = lit "add"
        /\ AddressBook.keys (book (snd (turn u today line w)))
           = AddressBook.keys (book w) ++ [name])
  /\ (wf_book (book w) -> wf_book (book (snd (turn u today line w)))).
Proof.
  unfold turn. destruct line as [|c s]; [split; [left; reflexivity|auto]|].
  destruct (parse_input_cases u (c :: s)) as [[_ ->]|(tok & args & Hs & Htok & ->)];
    [split; [left; reflexivity|auto]|].
  destruct (dispatch_state today (lower u tok) args w) as [Hk Hwf].
  split; [|assumption].
  destruct Hk as [Hk|(name & rest & -> & Hadd & Hk)]; [now left|].
  right. exists name, tok, rest. repeat split; try assumption.
  inversion Htok as [|? ? _ Hargs]; subst. now inversion Hargs.
Qed.

Lemma loop_state inputs : forall w,
  (exists added,
     AddressBook.keys (book (snd (loop u inputs w))) = AddressBook.keys (book w) ++ added
     /\ Forall (fun k => is_token k = true
                         /\ exists d line cmd rest,
                              In (d, line) inputs
                              /\ split line = cmd :: k :: rest
                              /\ lower u cmd = lit "add") added)
  /\ (wf_book (book w) -> wf_book (book (snd (loop u inputs w)))).
Proof.
  induction inputs as [|[today line] inputs IH]; intros w; cbn [loop].
  - split; [|auto]. exists []. split; [now rewrite app_nil_r|constructor].
  - destruct (turn_state today line w) as [Hk Hwf].
    assert (Hk' : exists added,
               AddressBook.keys (book (snd (turn u today line w)))
               = AddressBook.keys (book w) ++ added
               /\ Forall (fun k => is_token k = true
                                   /\ exists d l cmd rest,
                                        In (d, l) ((today, line) :: inputs)
                                        /\ split l = cmd :: k :: rest
                                        /\ lower u cmd = lit "add") added).
    { destruct Hk as [->|(name & cmd & rest & Hn & Hs & Hadd & ->)].
      - exists []. split; [now rewrite app_nil_r|constructor].
      - exists [name]. split; [reflexivity|]. repeat constructor; [assumption|].
        exists today, line, cmd, rest. split; [now left|auto]. }
    destruct (turn u today line w) as [[shown st] w1]. cbn [snd] in *.
    destruct st; [|now split..].
    destruct (IH w1) as [(added & Hk2 & Ha) Hwf2].
    destruct (loop u inputs w1) as [[shown' st'] w2]. cbn [snd] in *.
    split; [|auto].
    destruct Hk' as (added1 & Hk1 & Ha1).
    exists (added1 ++ added). split; [now rewrite Hk2, Hk1, app_assoc|].
    apply Forall_app. split; [assumption|].
    eapply Forall_impl; [|exact Ha].
    intros k [Hn (d & l & cmd & rest & Hin & Hs & Hadd)].
    split; [assumption|]. exists d, l, cmd, rest. split; [now right|auto].
Qed.

(** X14.  A session of [main], whatever is entered, keeps the book well
    formed and only lets the book grow: the keys of the book of the file
    stay, in their order, and every key added is a token of an input line,
    namely the first argument of a line whose command word is [add]; so no
    key added is empty or holds white space. *)
Theorem main_keeps_invariants (file : option AddressBook.t) (inputs : list (date * str)) :
  wf_book (load_address_book file) ->
  let w' := snd (main u file inputs) in
  wf_book (book w')
  /\ exists added,
       AddressBook.keys (book w') = AddressBook.keys (load_address_book file) ++ added
       /\ Forall (fun k => is_token k = true
                           /\ exists d line cmd rest,
                                In (d, line) inputs
                                /\ split line = cmd :: k :: rest
                                /\ lower u cmd = lit "add") added.
Proof.
  intros Hwf w'. subst w'. unfold main.
  destruct (loop_state inputs (mkWorld (load_address_book file) file)) as [Hk Hw].
  destruct (loop u inputs _) as [[shown st] w']. cbn [snd book] in *. auto.
Qed.




Lemma turn_closed today line w shown w1 :
  turn u today line w = (shown, Closed, w1) ->
  shown = [lit "Good bye!"] /\ w1 = mkWorld (book w) (Some (book w)).
Proof.
  unfold turn. destruct line as [|c s]; [discriminate|].
  destruct (parse_input u (c :: s)) as [[command args]|e]; [|discriminate].
  unfold dispatch.
  destruct (str_eqb command (lit "close") || str_eqb command (lit "exit")).
  { intros [= <- <-]. split; reflexivity. }
  destruct (str_eqb command (lit "hello")); [discriminate|].
  destruct (lookup command commands) as [cmd|]; [|discriminate].
  destruct (execute today cmd args w) as [[msg|e] w']; discriminate.
Qed.

Lemma loop_closed inputs : forall w shown w',
  loop u inputs w = (shown, Closed, w') ->
  pkl w' = Some (book w')
  /\ exists shown0 pre d line post,
       shown = shown0 ++ [lit "Good bye!"]
       /\ inputs = pre ++ (d, line) :: post
       /\ loop u (pre ++ [(d, line)]) w = (shown, Closed, w').
Proof.
  induction inputs as [|[today line] inputs IH]; intros w shown w'; cbn [loop];
    [discriminate|].
  destruct (turn u today line w) as [[sh st] w1] eqn:Ht.
  destruct st; [|intros [= <- <-]|discriminate].
  - destruct (loop u inputs w1) as [[sh' st'] w2] eqn:Hl.
    intros [= <- -> <-].
    destruct (IH w1 sh' w2 Hl) as [Hp (shown0 & pre & d & l & post & -> & -> & Hpre)].
    split; [assumption|].
    exists (sh ++ shown0), ((today, line) :: pre), d, l, post.
    rewrite app_assoc. split; [reflexivity|split; [reflexivity|]].
    cbn [app loop]. now rewrite Ht, Hpre, app_assoc.
  - pose proof Ht as Ht'. apply turn_closed in Ht' as [-> ->].
    split; [reflexivity|].
    exists [], [], today, line, inputs. cbn [app loop].
    split; [reflexivity|split; [reflexivity|]]. now rewrite Ht.
Qed.

(** X16.  A session that ends with [close] or [exit] has said [Good bye!]
    last and has saved: the file holds the book, and a new run of [main]
    starts from that very book.  The lines after the closing line are not
    read. *)
Theorem main_closed_saved
    (file : option AddressBook.t) (inputs : list (date * str))
    (shown : list str) (w' : World) :
  main u file inputs = (shown, Closed, w') ->
  pkl w' = Some (book w')
  /\ (exists shown0, shown = shown0 ++ [lit "Good bye!"])
  /\ main u (pkl w') [] = ([lit "Welcome to the assistant bot!"], Running, w')
  /\ exists pre d line post,
       inputs = pre ++ (d, line) :: post
       /\ main u file (pre ++ [(d, line)]) = (shown, Closed, w').
Proof.
  unfold main.
  destruct (loop u inputs _) as [[sh st] wx] eqn:Hl. intros [= <- -> <-].
  apply loop_closed in Hl as [Hp (shown0 & pre & d & line & post & -> & -> & Hpre)].
  split; [assumption|split; [|split]].
  - now exists (lit "Welcome to the assistant bot!" :: shown0).
  - cbn [loop]. rewrite Hp. cbn [load_address_book]. rewrite <- Hp.
    now destruct wx.
  - exists pre, d, line, post. split; [reflexivity|]. now rewrite Hpre.
Qed.

(** X17.  The command word is matched without regard to the case of its
    ASCII letters, and the arguments are taken as they are: two lines whose
    first tokens are ASCII and equal up to case, with the same further
    tokens, have the same effect. *)
Theorem turn_ascii_case_insensitive
    (u' : str -> str) (today : date) (l1 l2 c1 c2 : str) (args : list str) (w : World) :
  split l1 = c1 :: args ->
  split l2 = c2 :: args ->
  forallb is_ascii c1 = true ->
  forallb is_ascii c2 = true ->
  map lower_ascii_char c1 = map lower_ascii_char c2 ->
  turn u today l1 w = turn u' today l2 w
  /\ turn u today l1 w = dispatch today (map lower_ascii_char c1) args w.
Proof.
  intros H1 H2 Ha1 Ha2 Heq.
  assert (Hturn : forall v l c,
             split l = c :: args -> forallb is_ascii c = true ->
             turn v today l w = dispatch today (map lower_ascii_char c) args w).
  { intros v l c Hs Ha. unfold turn.
    destruct l as [|x l]; [discriminate|].
    destruct (parse_input_cases v (x :: l)) as [[Hb _]|(tok & args0 & Hs' & _ & ->)].
    - assert (Hnil : split (x :: l) = []) by (apply split_from_nil_iff; auto).
      congruence.
    - rewrite Hs in Hs'. injection Hs' as <- <-.
      unfold lower. now rewrite Ha. }
  split.
  - now rewrite (Hturn u l1 c1 H1 Ha1), (Hturn u' l2 c2 H2 Ha2), Heq.
  - now apply Hturn.
Qed.

End Sessions.

(** ** Birthdays on 29 February *)

Lemma strptime_Return_valid s d : strptime s = Return d -> valid_date d = true.
Proof.
  unfold strptime.
  destruct (match_dmY s) as [[[[dd m] y] [|c rest]]|]; try discriminate.
  destruct (int_of y), (int_of m), (int_of dd); try discriminate.
  intros H. now apply date_new_Return in H.
Qed.

Lemma replace_year_cases (bday : date) (y : Z) :
  valid_date bday = true ->
  in_range MINYEAR MAXYEAR y = true ->
  replace_year bday y
  = if (month bday =? 2) && (day bday =? 29) && negb (is_leap y)
    then Raise leap_day_error
    else Return (mkdate y (month bday) (day bday)).
Proof.
  intros Hv Hy. apply valid_date_fields in Hv as (_ & Hm & Hd).
  unfold replace_year, date_new. rewrite Hy. cbn [negb].
  assert (Hm' : in_range 1 12 (month bday) = true) by (apply in_range_iff; lia).
  rewrite Hm'. cbn [negb].
  assert (Hdim : days_in_month y (month bday)
                 = if (month bday =? 2) && is_leap y then 29
                   else nth (Z.to_nat (month bday)) DAYS_IN_MONTH 0) by reflexivity.
  assert (Hdim0 : days_in_month (year bday) (month bday)
                  = if (month bday =? 2) && is_leap (year bday) then 29
                    else nth (Z.to_nat (month bday)) DAYS_IN_MONTH 0) by reflexivity.
  destruct (Z.eqb_spec (month bday) 2) as [E2|N2]; cbn [andb] in *.
  - rewrite E2 in *. change (nth (Z.to_nat 2) DAYS_IN_MONTH 0) with 28 in *.
    destruct (Z.eqb_spec (day bday) 29) as [E29|N29]; cbn [andb].
    + destruct (is_leap y); cbn [negb].
      * rewrite Hdim. now replace (in_range 1 29 (day bday)) with true
          by (symmetry; apply in_range_iff; lia).
      * rewrite Hdim. now replace (in_range 1 28 (day bday)) with false
          by (symmetry; apply not_true_is_false; rewrite in_range_iff; lia).
    + rewrite Hdim.
      assert (Hle : day bday <= 28) by (destruct (is_leap (year bday)); lia).
      replace (in_range 1 (if is_leap y then 29 else 28) (day bday)) with true;
        [reflexivity|].
      symmetry. apply in_range_iff. destruct (is_leap y); lia.
  - rewrite Hdim, <- Hdim0.
    now replace (in_range 1 (days_in_month (year bday) (month bday)) (day bday))
      with true by (symmetry; apply in_range_iff; lia).
Qed.

Lemma wf_book_birthdays_valid data : wf_book data -> birthdays_valid (AddressBook.values data).
Proof.
  intros [_ Hall]. unfold birthdays_valid, AddressBook.values.
  apply Forall_map. eapply Forall_impl; [|exact Hall].
  intros [k r] H. cbn [fst snd] in *.
  apply wf_record_parts in H as (_ & _ & Hb).
  destruct (Record.birthday r) as [b|]; [now apply Hb|exact I].
Qed.

Lemma validate_date_strptime s :
  Birthday.validate_date s = true ->
  exists d, strptime s = Return d /\ valid_date d = true.
Proof.
  unfold Birthday.validate_date. destruct (strptime s) as [d|] eqn:E; [|discriminate].
  intros _. exists d. split; [reflexivity|now apply (strptime_Return_valid s)].
Qed.

Lemma anchored_cases today r :
  in_range MINYEAR MAXYEAR (year today) = true ->
  match Record.birthday r with
  | Some b => Birthday.validate_date (value b) = true
  | None => True
  end ->
  Record.birthday r <> None ->
  (anchored today r = None <-> on_leap_day r && negb (is_leap (year today)) = true).
Proof.
  intros Hy Hb Hsome. unfold anchored, on_leap_day, Birthday.string_to_date.
  destruct (Record.birthday r) as [b|]; [|congruence].
  destruct (validate_date_strptime _ Hb) as (d & -> & Hv).
  rewrite (replace_year_cases d (year today) Hv Hy).
  destruct ((month d =? 2) && (day d =? 29)); cbn [andb];
    [|split; discriminate].
  destruct (is_leap (year today)); cbn [negb]; split; congruence.
Qed.

Lemma upcoming_loop_leap_day today days limit records : forall acc,
  in_range MINYEAR MAXYEAR (year today) = true ->
  add_days today days = Return limit ->
  birthdays_valid records ->
  is_leap (year today) = false ->
  existsb on_leap_day records = true ->
  AddressBook.upcoming_loop today days acc records = Raise leap_day_error.
Proof.
  induction records as [|r records IH]; intros acc Hy Hlim Hval Hleap Hex;
    [discriminate|].
  inversion Hval as [|? ? Hr Hval']; subst.
  cbn [AddressBook.upcoming_loop]. cbn [existsb] in Hex.
  unfold on_leap_day, Birthday.string_to_date in *.
  destruct (Record.birthday r) as [b|]; [|now apply IH].
  destruct (validate_date_strptime _ Hr) as (d & Hs & Hv). rewrite Hs in *.
  cbn [bind outcome_monad].
  rewrite (replace_year_cases d (year today) Hv Hy), Hleap. cbn [negb].
  rewrite andb_true_r.
  destruct ((month d =? 2) && (day d =? 29)); [reflexivity|].
  cbn [bind outcome_monad orb] in *. rewrite Hlim. cbn [bind outcome_monad].
  destruct (date_le today _); [destruct (date_le _ limit)|]; now apply IH.
Qed.

Lemma upcoming_closed_form
    (today : date) (days : Z) (limit : date) (data : AddressBook.t) :
  wf_book data ->
  in_range MINYEAR MAXYEAR (year today) = true ->
  add_days today days = Return limit ->
  AddressBook.get_upcoming_birthdays today days data
  = if is_leap (year today)
       || negb (existsb on_leap_day (AddressBook.values data))
    then Return (filter (in_window today days) (AddressBook.values data))
    else Raise leap_day_error.
Proof.
  intros Hwf Hy Hlim. apply wf_book_birthdays_valid in Hwf.
  unfold AddressBook.get_upcoming_birthdays.
  destruct (is_leap (year today) || negb (existsb on_leap_day (AddressBook.values data)))
    eqn:E.
  - rewrite (upcoming_loop_total today days limit _ [] Hlim); [reflexivity|].
    intros r Hin Hsome Hnone.
    unfold birthdays_valid in Hwf. rewrite Forall_forall in Hwf.
    apply (anchored_cases today r Hy (Hwf r Hin) Hsome) in Hnone.
    apply andb_true_iff in Hnone as [Hl Hn]. apply negb_true_iff in Hn.
    rewrite Hn in E. cbn [orb] in E. apply negb_true_iff in E.
    assert (Hex : existsb on_leap_day (AddressBook.values data) = true)
      by (apply existsb_exists; eauto).
    congruence.
  - apply orb_false_iff in E as [Hleap Hex]. apply negb_false_iff in Hex.
    now apply (upcoming_loop_leap_day today days limit).
Qed.

(** X18.  On a well-formed book, with a clock in the years 1 to 9999 and a
    window that ends on a date, the birthday query fails in exactly one
    case: the year is not a leap year and some contact has a birthday on
    29 February.  It then raises the [ValueError] of [replace], whatever
    the other birthdays are and however far that birthday is; otherwise
    it returns the records in the window. *)
Theorem upcoming_birthdays_leap_day
    (today : date) (days : Z) (limit : date) (data : AddressBook.t) :
  wf_book data ->
  in_range MINYEAR MAXYEAR (year today) = true ->
  add_days today days = Return limit ->
  ((exists e, AddressBook.get_upcoming_birthdays today days data = Raise e)
   <-> is_leap (year today) = false
       /\ exists r, In r (AddressBook.values data) /\ on_leap_day r = true)
  /\ (forall e, AddressBook.get_upcoming_birthdays today days data = Raise e ->
        e = leap_day_error)
  /\ (forall l, AddressBook.get_upcoming_birthdays today days data = Return l ->
        l = filter (in_window today days) (AddressBook.values data)).
Proof.
  intros Hwf Hy Hlim.
  rewrite (upcoming_closed_form today days limit data Hwf Hy Hlim).
  destruct (is_leap (year today)); cbn [orb].
  - split; [split; [intros [e He]; discriminate|intros [H _]; discriminate]|].
    split; [discriminate|now intros l [= <-]].
  - destruct (existsb on_leap_day (AddressBook.values data)) eqn:Hex; cbn [negb].
    + apply existsb_exists in Hex.
      split; [split; [auto|eauto]|].
      split; [now intros e [= <-]|discriminate].
    + split; [split; [intros [e He]; discriminate|]|].
      * intros [_ (r & Hin & Hr)].
        assert (existsb on_leap_day (AddressBook.values data) = true)
          by (apply existsb_exists; eauto).
        congruence.
      * split; [discriminate|now intros l [= <-]].
Qed.

Lemma wf_leap_book : wf_book leap_book.
Proof.
  split.
  - repeat constructor; simpl; intuition discriminate.
  - repeat constructor.
Qed.

Lemma upcoming_birthdays_leap_day_witness :
  ((exists e, AddressBook.get_upcoming_birthdays (mkdate 2023 6 10) 7 leap_book = Raise e)
   <-> is_leap (year (mkdate 2023 6 10)) = false
       /\ exists r, In r (AddressBook.values leap_book) /\ on_leap_day r = true)
  /\ (forall e, AddressBook.get_upcoming_birthdays (mkdate 2023 6 10) 7 leap_book = Raise e ->
        e = leap_day_error)
  /\ (forall l, AddressBook.get_upcoming_birthdays (mkdate 2023 6 10) 7 leap_book = Return l ->
        l = filter (in_window (mkdate 2023 6 10) 7) (AddressBook.values leap_book)).
Proof.
  apply (upcoming_birthdays_leap_day (mkdate 2023 6 10) 7 (mkdate 2023 6 17) leap_book).
  - exact wf_leap_book.
  - reflexivity.
  - vm_compute. reflexivity.
Defined.

(** X19.  Show Birthdays on a well-formed book, with the clock on a date
    before the year 9999.  In a year that is not a leap year, a single
    birthday on 29 February in the book makes the command answer with the
    text of the [ValueError] of [replace] on every day of the year;
    otherwise it answers with the lines of the records in the seven-day
    window, or says that there is none.  The arguments are ignored and the
    state is as before. *)
Theorem show_birthdays_answer (today : date) (args : list str) (w : World) :
  wf_book (book w) ->
  valid_date today = true ->
  year today < 9999 ->
  execute today birthdays args w
  = (Return
       (if is_leap (year today)
           || negb (existsb on_leap_day (AddressBook.values (book w)))
        then
          match filter (in_window today 7) (AddressBook.values (book w)) with
          | [] => lit "No birthdays in the next week!"
          | r :: l => join (lit (String "010" EmptyString)) (map Record.to_str (r :: l))
          end
        else lit "day is out of range for month"),
     w).
Proof.
  intros Hwf Hv Hy. destruct (add_days_week_ok today Hv Hy) as [limit Hlim].
  assert (Hyr : in_range MINYEAR MAXYEAR (year today) = true).
  { apply valid_date_fields in Hv. apply in_range_iff. unfold MINYEAR, MAXYEAR. lia. }
  cbn [execute]. unfold_cmd.
  rewrite (upcoming_closed_form today 7 limit (book w) Hwf Hyr Hlim).
  destruct (is_leap (year today) || negb (existsb on_leap_day _)); [|reflexivity].
  now destruct (filter (in_window today 7) (AddressBook.values (book w))).
Qed.

Lemma show_birthdays_answer_witness :
  execute (mkdate 2023 6 10) birthdays [] (mkWorld leap_book None)
  = (Return
       (if is_leap (year (mkdate 2023 6 10))
           || negb (existsb on_leap_day (AddressBook.values (book (mkWorld leap_book None))))
        then
          match filter (in_window (mkdate 2023 6 10) 7)
                  (AddressBook.values (book (mkWorld leap_book None))) with
          | [] => lit "No birthdays in the next week!"
          | r :: l => join (lit (String "010" EmptyString)) (map Record.to_str (r :: l))
          end
        else lit "day is out of range for month"),
     mkWorld leap_book None).
Proof.
  apply (show_birthdays_answer (mkdate 2023 6 10) [] (mkWorld leap_book None)).
  - exact wf_leap_book.
  - reflexivity.
  - simpl. lia.
Defined.

(** ** The listing *)

Lemma join_snoc (sep : str) (l : list str) (x : str) :
  join sep (l ++ [x])
  = match l with
    | [] => x
    | _ :: _ => join sep l ++ sep ++ x
    end.
Proof.
  induction l as [|a l IH]; [reflexivity|].
  destruct l as [|b l]; [reflexivity|].
  change (join sep ((a :: b :: l) ++ [x])) with (a ++ sep ++ join sep ((b :: l) ++ [x])).
  rewrite IH. change (join sep (a :: b :: l)) with (a ++ sep ++ join sep (b :: l)).
  now rewrite <- !app_assoc.
Qed.

(** X20.  Show All never reports an error and lists the contacts in the
    order in which they were added: after Add Contact has added a new
    name, the listing is the listing before, a line break when that was
    not empty, and the line of the new contact, whose birthday reads
    [N/A]. *)
Theorem show_all_after_add
    (today : date) (w : World) (N p : str) (rest args args' : list str) :
  AddressBook.find N (book w) = None ->
  Phone.validate p = true ->
  let w1 := snd (execute today add (N :: p :: rest) w) in
  let line := lit "Contact name: " ++ N ++ lit ", phone " ++ p ++ lit ", birthday: N/A" in
  exists old,
    execute today all args w = (Return old, w)
    /\ execute today all args' w1
       = (Return (match book w with
                  | [] => line
                  | _ :: _ => old ++ lit (String "010" EmptyString) ++ line
                  end), w1).
Proof.
  intros Hfind Hv w1 line. subst w1. cbn [execute].
  rewrite (add_contact_valid w N p rest Hv), Hfind. cbn [snd].
  rewrite (setitem_absent N _ (book w) Hfind).
  eexists. split; [reflexivity|]. unfold_cmd.
  unfold AddressBook.values. rewrite !map_app. cbn [map snd]. rewrite join_snoc.
  destruct (book w) as [|kr data]; reflexivity.
Qed.

Lemma show_all_after_add_witness :
  let w1 := snd (execute (mkdate 2024 6 10) add [lit "Bob"; lit "0123456789"]
                   alice_with_birthday) in
  let line := lit "Contact name: " ++ lit "Bob" ++ lit ", phone " ++ lit "0123456789"
                ++ lit ", birthday: N/A" in
  exists old,
    execute (mkdate 2024 6 10) all [] alice_with_birthday = (Return old, alice_with_birthday)
    /\ execute (mkdate 2024 6 10) all [] w1
       = (Return (match book alice_with_birthday with
                  | [] => line
                  | _ :: _ => old ++ lit (String "010" EmptyString) ++ line
                  end), w1).
Proof.
  apply (show_all_after_add (mkdate 2024 6 10) alice_with_birthday (lit "Bob")
           (lit "0123456789") [] [] []);
    reflexivity.
Defined.

Lemma parse_input_join_witness :
  parse_input (fun s => s) (join (lit " ") [lit "ADD"; lit "Bob"; lit "0123456789"])
  = Return (lower (fun s => s) (lit "ADD"), [lit "Bob"; lit "0123456789"]).
Proof.
  apply (parse_input_join (fun s => s) (lit "ADD") [lit "Bob"; lit "0123456789"]).
  repeat constructor.
Defined.

Lemma main_keeps_invariants_witness :
  let inputs := [june "add Bob 123"; june "add-birthday Bob 1.1.2020"; june "all"] in
  let w' := snd (main (fun s => s) (Some (book alice_with_birthday)) inputs) in
  wf_book (book w')
  /\ exists added,
       AddressBook.keys (book w')
       = AddressBook.keys (load_address_book (Some (book alice_with_birthday))) ++ added
       /\ Forall (fun k => is_token k = true
                           /\ exists d line cmd rest,
                                In (d, line) inputs
                                /\ split line = cmd :: k :: rest
                                /\ lower (fun s => s) cmd = lit "add") added.
Proof.
  apply (main_keeps_invariants (fun s => s) (Some (book alice_with_birthday))
           [june "add Bob 123"; june "add-birthday Bob 1.1.2020"; june "all"]).
  exact wf_book_alice.
Defined.


Lemma main_closed_saved_witness :
  let w' := snd (execute (mkdate 2024 6 10) add [lit "Bob"; lit "0123456789"] empty_world) in
  let shown := [lit "Welcome to the assistant bot!"; lit "Contact added."; lit "Good bye!"] in
  pkl w' = Some (book w')
  /\ (exists shown0, shown = shown0 ++ [lit "Good bye!"])
  /\ main (fun s => s) (pkl w') [] = ([lit "Welcome to the assistant bot!"], Running, w')
  /\ exists pre d line post,
       [june "add Bob 0123456789"; june "EXIT now"; june "all"] = pre ++ (d, line) :: post
       /\ main (fun s => s) None (pre ++ [(d, line)]) = (shown, Closed, w').
Proof.
  apply (main_closed_saved (fun s => s) None
           [june "add Bob 0123456789"; june "EXIT now"; june "all"]).
  vm_compute. reflexivity.
Defined.

Lemma turn_ascii_case_insensitive_witness :
  turn (fun s => s) (mkdate 2024 6 10) (lit "ADD Bob 0123456789") empty_world
  = turn (fun s => rev s) (mkdate 2024 6 10) (lit "  add   Bob 0123456789 ") empty_world
  /\ turn (fun s => s) (mkdate 2024 6 10) (lit "ADD Bob 0123456789") empty_world
     = dispatch (mkdate 2024 6 10) (map lower_ascii_char (lit "ADD"))
         [lit "Bob"; lit "0123456789"] empty_world.
Proof.
  apply (turn_ascii_case_insensitive (fun s => s) (fun s => rev s) (mkdate 2024 6 10)
           (lit "ADD Bob 0123456789") (lit "  add   Bob 0123456789 ")
           (lit "ADD") (lit "add") [lit "Bob"; lit "0123456789"] empty_world);
    reflexivity.
Defined.

(** ** Ordinals and the order of dates *)

Lemma forallb_seq_Z (f : Z -> bool) (len : nat) :
  forallb f (map Z.of_nat (seq 0 len)) = true ->
  forall n, 0 <= n < Z.of_nat len -> f n = true.
Proof.
  intros H n Hn. rewrite forallb_forall in H. apply H.
  apply in_map_iff. exists (Z.to_nat n). split; [lia|].
  apply in_seq. lia.
Qed.

Lemma month_day_ok (leapyear : bool) (n : Z) :
  0 <= n < 365 -> year_day_ok leapyear n = true.
Proof.
  intros Hn. apply (forallb_seq_Z (year_day_ok leapyear) 365); [|lia].
  destruct leapyear; vm_compute; reflexivity.
Qed.

Lemma is_leap_iff y :
  is_leap y = true <-> y mod 4 = 0 /\ (y mod 100 <> 0 \/ y mod 400 = 0).
Proof.
  unfold is_leap. rewrite andb_true_iff, orb_true_iff, negb_true_iff, !Z.eqb_eq, Z.eqb_neq.
  tauto.
Qed.

Lemma fromordinal_eq (n : Z) :
  fromordinal n
  = let n0 := n - 1 in
    let a := n0 / 146097 in
    let r400 := n0 mod 146097 in
    let b := r400 / 36524 in
    let r100 := r400 mod 36524 in
    let c := r100 / 1461 in
    let r4 := r100 mod 1461 in
    let e := r4 / 365 in
    let r1 := r4 mod 365 in
    let y := a * 400 + 1 + b * 100 + c * 4 + e in
    if (e =? 4) || (b =? 4) then mkdate (y - 1) 12 31
    else
      let md := month_day r1 ((e =? 3) && (negb (c =? 24) || (b =? 3))) in
      mkdate y (fst md) (snd md).
Proof.
  unfold fromordinal, month_day, DI400Y, DI100Y, DI4Y. cbv zeta.
  destruct (_ || _); [reflexivity|].
  match goal with |- context [if ?c then _ else _] => destruct c end; reflexivity.
Qed.

Lemma fromordinal_correct (n : Z) :
  1 <= n <= MAXORDINAL ->
  toordinal (fromordinal n) = n /\ valid_date (fromordinal n) = true.
Proof.
  unfold MAXORDINAL. intros Hn. rewrite fromordinal_eq. cbv zeta.
  pose proof (Z.div_mod (n - 1) 146097 ltac:(lia)) as E400.
  pose proof (Z.mod_pos_bound (n - 1) 146097 ltac:(lia)) as B400.
  set (a := (n - 1) / 146097) in *. set (r400 := (n - 1) mod 146097) in *.
  pose proof (Z.div_mod r400 36524 ltac:(lia)) as E100.
  pose proof (Z.mod_pos_bound r400 36524 ltac:(lia)) as B100.
  set (b := r400 / 36524) in *. set (r100 := r400 mod 36524) in *.
  pose proof (Z.div_mod r100 1461 ltac:(lia)) as E4.
  pose proof (Z.mod_pos_bound r100 1461 ltac:(lia)) as B4.
  set (c := r100 / 1461) in *. set (r4 := r100 mod 1461) in *.
  pose proof (Z.div_mod r4 365 ltac:(lia)) as E1.
  pose proof (Z.mod_pos_bound r4 365 ltac:(lia)) as B1.
  set (e := r4 / 365) in *. set (r1 := r4 mod 365) in *.
  clearbody a r400 b r100 c r4 e r1.
  assert (Ha : 0 <= a <= 24) by lia.
  assert (Hb : 0 <= b <= 4) by lia.
  assert (Hc : 0 <= c <= 24) by lia.
  assert (He : 0 <= e <= 4) by lia.
  destruct ((e =? 4) || (b =? 4)) eqn:Hspecial.
  - apply orb_true_iff in Hspecial. rewrite !Z.eqb_eq in Hspecial.
    unfold toordinal, valid_date, days_before_year, days_before_month, days_in_month.
    cbn [year month day]. change (12 =? 2) with false. cbn [andb].
    change (2 <? 12) with true. cbn [andb].
    change (nth (Z.to_nat 12) DAYS_BEFORE_MONTH 0) with 334.
    change (nth (Z.to_nat 12) DAYS_IN_MONTH 0) with 31.
    assert (Hleap : is_leap (a * 400 + 1 + b * 100 + c * 4 + e - 1) = true).
    { apply is_leap_iff. Z.div_mod_to_equations. lia. }
    rewrite Hleap. cbv zeta. split.
    + Z.div_mod_to_equations. lia.
    + unfold in_range, MINYEAR, MAXYEAR. 
      repeat (apply andb_true_iff; split); apply Z.leb_le; lia.
  - apply orb_false_iff in Hspecial. rewrite !Z.eqb_neq in Hspecial.
    set (leapyear := (e =? 3) && (negb (c =? 24) || (b =? 3))).
    assert (Hleap : is_leap (a * 400 + 1 + b * 100 + c * 4 + e) = leapyear).
    { subst leapyear. destruct (is_leap _) eqn:El.
      - apply is_leap_iff in El. symmetry. 
        rewrite andb_true_iff, orb_true_iff, negb_true_iff, !Z.eqb_eq, Z.eqb_neq.
        Z.div_mod_to_equations. lia.
      - symmetry. apply not_true_is_false. intros H. 
        rewrite andb_true_iff, orb_true_iff, negb_true_iff, !Z.eqb_eq, Z.eqb_neq in H.
        apply not_true_iff_false in El. apply El. apply is_leap_iff.
        Z.div_mod_to_equations. lia. }
    pose proof (month_day_ok leapyear r1 B1) as Hmd.
    unfold year_day_ok in Hmd. destruct (month_day r1 leapyear) as [m d].
    cbn [fst snd]. apply andb_true_iff in Hmd as [Hmd H3].
    apply andb_true_iff in Hmd as [H1 H2].
    unfold toordinal, valid_date, days_before_month, days_in_month.
    cbn [year month day]. rewrite Hleap, H1, H2.
    apply Z.eqb_eq in H3. split.
    + unfold days_before_year. cbv zeta. Z.div_mod_to_equations. lia.
    + rewrite !andb_true_r. unfold in_range, MINYEAR, MAXYEAR.
      apply andb_true_iff; split; apply Z.leb_le; lia.
Qed.

Lemma is_leap_year_length y :
  days_before_year (y + 1) = days_before_year y + (if is_leap y then 366 else 365).
Proof.
  unfold days_before_year. cbv zeta. destruct (is_leap y) eqn:El.
  - apply is_leap_iff in El. Z.div_mod_to_equations. lia.
  - apply not_true_iff_false in El. rewrite is_leap_iff in El.
    Z.div_mod_to_equations. lia.
Qed.

Lemma days_before_year_mono y1 y2 :
  y1 <= y2 -> days_before_year y1 <= days_before_year y2.
Proof.
  intros H. replace y2 with (y1 + Z.of_nat (Z.to_nat (y2 - y1))) by lia.
  induction (Z.to_nat (y2 - y1)) as [|k IH]; [now rewrite Z.add_0_r|].
  rewrite Nat2Z.inj_succ, <- Z.add_1_r, Z.add_assoc, is_leap_year_length.
  destruct (is_leap _); lia.
Qed.

Lemma months_ok (leap : bool) (m1 m2 : Z) :
  1 <= m1 -> m1 < m2 -> m2 <= 12 ->
  dbm_l leap m1 + dim_l leap m1 <= dbm_l leap m2
  /\ dbm_l leap m2 + dim_l leap m2 <= (if leap then 366 else 365).
Proof.
  intros H1 H12 H2.
  assert (Hall : forallb (fun a => forallb (fun b =>
              implb (a <? b)
                ((dbm_l leap a + dim_l leap a <=? dbm_l leap b)
                 && (dbm_l leap b + dim_l leap b <=? (if leap then 366 else 365))))
              (map Z.of_nat (seq 0 13))) (map Z.of_nat (seq 0 13)) = true)
    by (destruct leap; vm_compute; reflexivity).
  pose proof (forallb_seq_Z _ 13 Hall m1 ltac:(lia)) as Hm1. cbv beta in Hm1.
  pose proof (forallb_seq_Z _ 13 Hm1 m2 ltac:(lia)) as Hm2. cbv beta in Hm2.
  replace (m1 <? m2) with true in Hm2 by (symmetry; apply Z.ltb_lt; lia).
  cbn [implb] in Hm2. apply andb_true_iff in Hm2 as [Ha Hb].
  apply Z.leb_le in Ha, Hb. auto.
Qed.

Lemma last_month_ok (leap : bool) (m : Z) :
  1 <= m <= 12 -> 0 <= dbm_l leap m /\ dbm_l leap m + dim_l leap m <= (if leap then 366 else 365).
Proof.
  intros Hm.
  assert (Hall : forallb (fun b => implb (1 <=? b)
                 ((0 <=? dbm_l leap b) && (dbm_l leap b + dim_l leap b <=? (if leap then 366 else 365))))
              (map Z.of_nat (seq 0 13)) = true)
    by (destruct leap; vm_compute; reflexivity).
  pose proof (forallb_seq_Z _ 13 Hall m ltac:(lia)) as H. cbv beta in H.
  replace (1 <=? m) with true in H by (symmetry; apply Z.leb_le; lia).
  cbn [implb] in H. apply andb_true_iff in H as [Ha Hb].
  apply Z.leb_le in Ha, Hb. auto.
Qed.

Lemma toordinal_lt (a b : date) :
  valid_date a = true -> valid_date b = true ->
  date_lt a b = true -> toordinal a < toordinal b.
Proof.
  intros Ha Hb. apply valid_date_fields in Ha as (Hya & Hma & Hda).
  apply valid_date_fields in Hb as (Hyb & Hmb & Hdb).
  unfold date_lt, toordinal.
  change (days_before_month (year a) (month a)) with (dbm_l (is_leap (year a)) (month a)).
  change (days_before_month (year b) (month b)) with (dbm_l (is_leap (year b)) (month b)).
  change (days_in_month (year a) (month a)) with (dim_l (is_leap (year a)) (month a)) in Hda.
  change (days_in_month (year b) (month b)) with (dim_l (is_leap (year b)) (month b)) in Hdb.
  pose proof (last_month_ok (is_leap (year a)) (month a) Hma) as [La1 La2].
  pose proof (last_month_ok (is_leap (year b)) (month b) Hmb) as [Lb1 Lb2].
  intros H.
  repeat rewrite ?orb_true_iff, ?andb_true_iff, ?Z.ltb_lt, ?Z.eqb_eq in H.
  destruct H as [Hy|[Hy [Hm|[Hm Hd]]]].
  - pose proof (is_leap_year_length (year a)) as Hlen.
    pose proof (days_before_year_mono (year a + 1) (year b) ltac:(lia)) as Hmono.
    destruct (is_leap (year a)); lia.
  - rewrite Hy in *.
    pose proof (months_ok (is_leap (year b)) (month a) (month b) ltac:(lia) Hm ltac:(lia))
      as [H _].
    lia.
  - rewrite Hy, Hm in *. lia.
Qed.

Lemma date_le_cases (a b : date) :
  date_le a b = true <-> a = b \/ date_lt a b = true.
Proof.
  unfold date_le, date_lt. destruct a as [ya ma da], b as [yb mb db]. cbn [year month day].
  repeat rewrite ?orb_true_iff, ?andb_true_iff, ?Z.ltb_lt, ?Z.eqb_eq, ?Z.leb_le.
  split.
  - intros [H|[Hy [H|[Hm Hd]]]]; try (right; tauto).
    destruct (Z.eq_dec da db) as [->|Hne]; [left; congruence|right]. 
    right. split; [assumption|]. right. split; [assumption|lia].
  - intros [E|H].
    { injection E as -> -> ->. right. split; [reflexivity|].
      right. split; [reflexivity|lia]. }
    destruct H as [H|[Hy [H|[Hm Hd]]]]; try tauto.
    right. split; [assumption|]. right. split; [assumption|lia].
Qed.

Lemma date_total (a b : date) : date_le a b = true \/ date_lt b a = true.
Proof.
  unfold date_le, date_lt.
  repeat rewrite ?orb_true_iff, ?andb_true_iff, ?Z.ltb_lt, ?Z.eqb_eq, ?Z.leb_le. lia.
Qed.

Lemma date_le_ordinal (a b : date) :
  valid_date a = true -> valid_date b = true ->
  (date_le a b = true <-> toordinal a <= toordinal b).
Proof.
  intros Ha Hb. split.
  - intros H. apply date_le_cases in H as [->|H]; [lia|].
    pose proof (toordinal_lt a b Ha Hb H). lia.
  - intros H. destruct (date_total a b) as [Hle|Hlt]; [assumption|].
    pose proof (toordinal_lt b a Hb Ha Hlt). lia.
Qed.

Lemma add_days_Return (d : date) (n : Z) (d' : date) :
  add_days d n = Return d' ->
  valid_date d' = true /\ toordinal d' = toordinal d + n.
Proof.
  unfold add_days. cbv zeta.
  destruct ((0 <? toordinal d + n) && (toordinal d + n <=? MAXORDINAL)) eqn:E;
    [|discriminate].
  apply andb_true_iff in E as [E1 E2]. apply Z.ltb_lt in E1. apply Z.leb_le in E2.
  intros [= <-].
  destruct (fromordinal_correct (toordinal d + n) ltac:(lia)) as [H1 H2]. auto.
Qed.

(** ** The window, in days *)

Lemma anchored_Some today r a :
  anchored today r = Some a ->
  valid_date a = true
  /\ exists b bday,
       Record.birthday r = Some b
       /\ Birthday.string_to_date (value b) = Return bday
       /\ a = mkdate (year today) (month bday) (day bday).
Proof.
  unfold anchored, replace_year.
  destruct (Record.birthday r) as [b|]; [|discriminate].
  destruct (Birthday.string_to_date (value b)) as [bday|] eqn:Es; [|discriminate].
  destruct (date_new _ _ _) as [x|] eqn:Ed; [|discriminate].
  intros [= <-]. apply date_new_Return in Ed as [-> Hv].
  split; [assumption|]. now exists b, bday.
Qed.

Lemma in_window_days today days limit r :
  valid_date today = true ->
  add_days today days = Return limit ->
  (in_window today days r = true
   <-> exists a, anchored today r = Some a
                 /\ 0 <= toordinal a - toordinal today <= days).
Proof.
  intros Hv Hlim. unfold in_window. rewrite Hlim.
  apply add_days_Return in Hlim as [Hvl Hol].
  destruct (anchored today r) as [a|] eqn:Ha.
  - apply anchored_Some in Ha as [Hva _].
    rewrite andb_true_iff, (date_le_ordinal today a Hv Hva),
      (date_le_ordinal a limit Hva Hvl), Hol.
    split.
    + intros [H1 H2]. exists a. split; [reflexivity|lia].
    + intros (a' & [= <-] & H). lia.
  - split; [discriminate|]. intros (a & Hsome & _). discriminate.
Qed.

(** X21.  The window counted in days.  With the clock on a date and the
    end of the window a date, a contact is in the answer of the query
    exactly when its birthday, moved to the current year, is a date that
    lies no day before today and at most [days] days after it. *)
Theorem upcoming_birthdays_by_day_count
    (today : date) (days : Z) (limit : date) (data : AddressBook.t)
    (l : list Record.t) (r : Record.t) :
  valid_date today = true ->
  add_days today days = Return limit ->
  AddressBook.get_upcoming_birthdays today days data = Return l ->
  In r l
  <-> In r (AddressBook.values data)
      /\ exists a, anchored today r = Some a
                   /\ 0 <= toordinal a - toordinal today <= days.
Proof.
  intros Hv Hlim Hl.
  apply upcoming_loop_Return in Hl. cbn [app] in Hl. subst l.
  rewrite filter_In, (in_window_days today days limit r Hv Hlim). tauto.
Qed.

Lemma upcoming_birthdays_by_day_count_witness :
  In (snd (person "Eve" "0123456789" "17.06.1985"))
    (map snd [ person "Ann" "0123456789" "12.06.1990";
               person "Dan" "0123456789" "10.06.2000";
               person "Eve" "0123456789" "17.06.1985" ])
  <-> In (snd (person "Eve" "0123456789" "17.06.1985")) (AddressBook.values june_book)
      /\ exists a, anchored (mkdate 2024 6 10) (snd (person "Eve" "0123456789" "17.06.1985"))
                   = Some a
                   /\ 0 <= toordinal a - toordinal (mkdate 2024 6 10) <= 7.
Proof.
  apply (upcoming_birthdays_by_day_count (mkdate 2024 6 10) 7 (mkdate 2024 6 17) june_book);
    vm_compute; reflexivity.
Defined.

(** X22.  Three consequences for the query when it answers: a contact
    whose birthday has today's month and day is in the answer of every
    window of zero days or more; a longer window answers with every
    contact of a shorter one; a window of a negative number of days
    answers with no contact. *)
Theorem upcoming_birthdays_window_laws
    (today : date) (days : Z) (limit : date) (data : AddressBook.t)
    (l : list Record.t) :
  valid_date today = true ->
  add_days today days = Return limit ->
  AddressBook.get_upcoming_birthdays today days data = Return l ->
  (forall r b bday,
     0 <= days ->
     In r (AddressBook.values data) ->
     Record.birthday r = Some b ->
     Birthday.string_to_date (value b) = Return bday ->
     month bday = month today -> day bday = day today ->
     In r l)
  /\ (forall days' limit' l',
        days <= days' ->
        add_days today days' = Return limit' ->
        AddressBook.get_upcoming_birthdays today days' data = Return l' ->
        incl l l')
  /\ (days < 0 -> l = []).
Proof.
  intros Hv Hlim Hl.
  pose proof Hl as Hl0.
  apply upcoming_loop_Return in Hl0. cbn [app] in Hl0.
  split; [|split].
  - intros r b bday Hd Hin Hb Hs Hm Hday. subst l.
    apply filter_In. split; [assumption|].
    apply (in_window_days today days limit r Hv Hlim).
    exists today. split; [|lia].
    unfold anchored, replace_year. rewrite Hb, Hs, Hm, Hday.
    destruct today as [y m d]. cbn [year month day] in *.
    now rewrite (date_new_valid y m d Hv).
  - intros days' limit' l' Hle Hlim' Hl' r Hin.
    apply upcoming_loop_Return in Hl'. cbn [app] in Hl'. subst l l'.
    apply filter_In in Hin as [Hin Hw]. apply filter_In. split; [assumption|].
    apply (in_window_days today days limit r Hv Hlim) in Hw as (a & Ha & Hd).
    apply (in_window_days today days' limit' r Hv Hlim').
    exists a. split; [assumption|lia].
  - intros Hneg. subst l.
    destruct (filter _ _) as [|r l] eqn:E; [reflexivity|].
    assert (Hin : In r (filter (in_window today days) (AddressBook.values data)))
      by (rewrite E; now left).
    apply filter_In in Hin as [_ Hw].
    apply (in_window_days today days limit r Hv Hlim) in Hw as (a & _ & Hd). lia.
Qed.

Lemma upcoming_birthdays_window_laws_witness :
  (forall r b bday,
     0 <= 7 ->
     In r (AddressBook.values june_book) ->
     Record.birthday r = Some b ->
     Birthday.string_to_date (value b) = Return bday ->
     month bday = month (mkdate 2024 6 10) -> day bday = day (mkdate 2024 6 10) ->
     In r (map snd [ person "Ann" "0123456789" "12.06.1990";
                     person "Dan" "0123456789" "10.06.2000";
                     person "Eve" "0123456789" "17.06.1985" ]))
  /\ (forall days' limit' l',
        7 <= days' ->
        add_days (mkdate 2024 6 10) days' = Return limit' ->
        AddressBook.get_upcoming_birthdays (mkdate 2024 6 10) days' june_book = Return l' ->
        incl (map snd [ person "Ann" "0123456789" "12.06.1990";
                        person "Dan" "0123456789" "10.06.2000";
                        person "Eve" "0123456789" "17.06.1985" ]) l')
  /\ (7 < 0 ->
      map snd [ person "Ann" "0123456789" "12.06.1990";
                person "Dan" "0123456789" "10.06.2000";
                person "Eve" "0123456789" "17.06.1985" ] = []).
Proof.
  apply (upcoming_birthdays_window_laws (mkdate 2024 6 10) 7 (mkdate 2024 6 17) june_book);
    vm_compute; reflexivity.
Defined.
